(** * cmd/moby/containerd.go: a supervised containerd instance

    A shallow embedding of [cmd/moby/containerd.go]: the image-name
    normalisation [ImageName], the life cycle of a [ctd] instance
    ([NewContainerd], [Kill], [Close]), the [Fetch] subprocess call and the
    two archive builders [Store] and [Bundle].

    Go strings are byte sequences, so they are modelled by [string], whose
    characters are the 8-bit [ascii].  The operating system (file system,
    search path, process table, external tools) is an explicit [World] that
    every effectful function threads through. *)

From Stdlib Require Import ZArith NArith Lia Bool List Ascii String.
From Stdlib Require Import Numbers.DecimalString.
Import ListNotations.

Local Open Scope string_scope.
Local Open Scope Z_scope.

Set Warnings "-register-all".

(** ** Byte-level helpers on strings *)

Fixpoint take (n : nat) (s : string) : string :=
  match n, s with
  | O, _ => ""
  | S _, EmptyString => ""
  | S n', String c s' => String c (take n' s')
  end.

Fixpoint drop (n : nat) (s : string) : string :=
  match n, s with
  | O, _ => s
  | S _, EmptyString => ""
  | S n', String _ s' => drop n' s'
  end.

Fixpoint count_byte (c : ascii) (s : string) : nat :=
  match s with
  | EmptyString => O
  | String d s' => (if Ascii.eqb d c then 1 else 0) + count_byte c s'
  end.

Fixpoint has_byte (c : ascii) (s : string) : bool :=
  match s with
  | EmptyString => false
  | String d s' => Ascii.eqb d c || has_byte c s'
  end.

Definition len (s : string) : Z := Z.of_nat (String.length s).

(** ** Package [strings] *)

Module strings.

Definition HasPrefix (s pre : string) : bool := String.prefix pre s.

(** Position of the first occurrence of [sep] in [s]. *)
Fixpoint index_nat (s sep : string) : option nat :=
  if String.prefix sep s then Some O
  else match s with
       | EmptyString => None
       | String _ s' => option_map S (index_nat s' sep)
       end.

(** [strings.Index]: the byte offset of the first [sep] in [s], or -1. *)
Definition Index (s sep : string) : Z :=
  match index_nat s sep with
  | Some i => Z.of_nat i
  | None => -1
  end.

(** The loop of [strings.Count] for a non-empty [sep]; every round
    consumes at least one byte, so [String.length s] rounds are enough. *)
Fixpoint count_loop (fuel : nat) (s sep : string) : Z :=
  match fuel with
  | O => 0
  | S fuel' =>
      let i := Index s sep in
      if i =? -1 then 0
      else 1 + count_loop fuel' (drop (Z.to_nat i + String.length sep) s) sep
  end.

(** [strings.Count].  For the empty separator Go counts runes; the model
    counts bytes, which is the same on ASCII text. *)
Definition Count (s sep : string) : Z :=
  if String.eqb sep "" then len s + 1
  else count_loop (String.length s) s sep.

(** [explode] of Go's [strings] on ASCII text: one string per byte, at
    most [n] of them, the last holding the remainder. *)
Fixpoint explode (n : nat) (s : string) : list string :=
  match n, s with
  | O, _ => []
  | _, EmptyString => []
  | S O, _ => [s]
  | S n', String c s' =>
      match s' with
      | EmptyString => [s]
      | _ => String c "" :: explode n' s'
      end
  end.

(** The [for i < n] loop of [genSplit]: [n] is the number of cuts still
    allowed; the remainder is stored last. *)
Fixpoint genSplit_loop (n : nat) (s sep : string) (sepSave : nat)
  : list string :=
  match n with
  | O => [s]
  | S n' =>
      let m := Index s sep in
      if m <? 0 then [s]
      else take (Z.to_nat m + sepSave) s
           :: genSplit_loop n' (drop (Z.to_nat m + String.length sep) s)
                            sep sepSave
  end.

Definition genSplit (s sep : string) (sepSave : nat) (n : Z) : list string :=
  if n =? 0 then []
  else if String.eqb sep ""
       then explode (if n <? 0 then String.length s else Z.to_nat n) s
       else
         let n := if n <? 0 then Count s sep + 1 else n in
         genSplit_loop (Z.to_nat (n - 1)) s sep sepSave.

Definition SplitN (s sep : string) (n : Z) : list string :=
  genSplit s sep 0 n.

Definition Split (s sep : string) : list string :=
  genSplit s sep 0 (-1).

(** The replacement loop of [strings.Replace] for a non-empty [old]. *)
Fixpoint replace_loop (n : nat) (s old new : string) : string :=
  match n with
  | O => s
  | S n' =>
      let j := Z.to_nat (Index s old) in
      take j s ++ new
      ++ replace_loop n' (drop (j + String.length old) s) old new
  end.

(** [strings.Replace] for a non-empty [old]; with an empty [old] Go
    inserts [new] between runes, which no caller here asks for and which
    the model leaves as the identity. *)
Definition Replace (s old new : string) (n : Z) : string :=
  if String.eqb old new || (n =? 0) then s
  else if String.eqb old "" then s
  else
    let m := Count s old in
    if m =? 0 then s
    else
      let n := if (n <? 0) || (m <? n) then m else n in
      replace_loop (Z.to_nat n) s old new.

Definition TrimPrefix (s pre : string) : string :=
  if HasPrefix s pre then drop (String.length pre) s else s.

Fixpoint Join (a : list string) (sep : string) : string :=
  match a with
  | [] => ""
  | [x] => x
  | x :: rest => x ++ sep ++ Join rest sep
  end.

End strings.

(** ** [ImageName] *)

(** [ImageName] takes a Docker style repo name and returns a fully
    qualified name. *)
Definition ImageName (image : string) : string :=
  let slash := strings.SplitN image "/" 3 in
  let image :=
    match List.length slash with
    | 1%nat => "docker.io/library/" ++ image
    | 2%nat => "docker.io/" ++ image
    | _ => image
    end in
  let colon := strings.SplitN image ":" 2 in
  if negb (Nat.eqb (List.length colon) 2) then image ++ ":latest" else image.

(** ** Package [path/filepath] (Unix) *)

Module filepath.

Definition Separator : string := "/".

(** The elements of a path: the pieces between separators. *)
Fixpoint elements (path : string) : list string :=
  match path with
  | EmptyString => [""]
  | String c rest =>
      if Ascii.eqb c "/" then "" :: elements rest
      else match elements rest with
           | e :: es => String c e :: es
           | [] => [String c ""]
           end
  end.

Definition rooted (path : string) : bool := strings.HasPrefix path "/".

(** The scan of [Clean] over the elements of the path.  [stack] holds the
    elements written so far, last one first: an empty element and [.] are
    dropped, [..] removes the last real element, is kept in front of a
    relative path that cannot go further back, and is dropped at the
    root. *)
Fixpoint clean_elems (isRooted : bool) (elems stack : list string)
  : list string :=
  match elems with
  | [] => rev stack
  | e :: es =>
      if String.eqb e "" || String.eqb e "." then
        clean_elems isRooted es stack
      else if String.eqb e ".." then
        match stack with
        | top :: below =>
            if String.eqb top ".."
            then clean_elems isRooted es
                   (if isRooted then stack else ".." :: stack)
            else clean_elems isRooted es below
        | [] => clean_elems isRooted es (if isRooted then [] else [".."])
        end
      else clean_elems isRooted es (e :: stack)
  end.

(** [filepath.Clean]. *)
Definition Clean (path : string) : string :=
  if String.eqb path "" then "."
  else
    let out := clean_elems (rooted path) (elements path) [] in
    if rooted path then "/" ++ strings.Join out "/"
    else match out with
         | [] => "."
         | _ => strings.Join out "/"
         end.

(** [filepath.Join]: the elements from the first non-empty one on are
    joined with the separator and the result is cleaned. *)
Fixpoint Join (elem : list string) : string :=
  match elem with
  | [] => ""
  | e :: rest =>
      if String.eqb e "" then Join rest
      else Clean (strings.Join elem Separator)
  end.

(** The last element of a path, as [FileInfo.Name] reports it. *)
Definition Base (path : string) : string :=
  if String.eqb path "" then "."
  else match filter (fun e => negb (String.eqb e "")) (elements path) with
       | [] => Separator
       | e :: es => last es e
       end.

End filepath.

(** ** Errors *)

(** Go [error] values: the sentinels the code can meet and messages. *)
Inductive error : Type :=
| SkipDir                       (* filepath.SkipDir *)
| ErrWriteTooLong               (* tar.ErrWriteTooLong *)
| ErrWriteAfterClose            (* tar.ErrWriteAfterClose *)
| ErrNotExist (path : string)   (* ENOENT *)
| ErrExist (path : string)      (* EEXIST *)
| ErrPermission (path : string) (* EACCES, EPERM, EBUSY *)
| ErrNoSpace (path : string)    (* ENOSPC *)
| ErrNotFound (file : string)   (* exec.ErrNotFound *)
| ErrFinished                   (* os: process already finished *)
| ErrExit (argv : list string)  (* *exec.ExitError *)
| ErrNilDeref                   (* the panic of a nil dereference *)
| ErrorNew (msg : string).      (* errors.New, fmt.Errorf *)

Definition is_SkipDir (e : error) : bool :=
  match e with SkipDir => true | _ => false end.

(** ** The operating system *)

(** An [io.Writer] handed in by the caller is known by its identity. *)
Definition Sink := nat.

(** [exec.Cmd]: the fields the code sets, and the process once started. *)
Record Cmd : Type := mkCmd {
  Path : string;
  Args : list string;
  Stdout : option Sink;
  Stderr : option Sink;
  Process : option N
}.

(** A file-system node.  A directory lists its entries in the order
    [readDirNames] returns them, sorted by name. *)
Inductive Node : Type :=
| File (perm : N) (data : string)
| Dir (entries : list (string * Node))
| Fifo
| Socket.

Inductive ProcStatus : Type := Running | Zombie | Reaped.

Record Proc : Type := mkProc {
  p_cmd : Cmd;
  p_status : ProcStatus
}.

Inductive Event : Type :=
| Debugf (line : string)        (* a logrus debug line *)
| Exec (c : Cmd).               (* a program was started *)

Record World : Type := mkWorld {
  fs : Node;                    (* the tree below [/] *)
  cwd : list string;            (* elements of the working directory *)
  TMPDIR : string;
  PATH : list string;           (* the directories of $PATH *)
  GOOS : string;                (* runtime.GOOS *)
  rand : nat -> N;              (* the random source of ioutil.TempDir *)
  rand_pos : nat;
  free : Z;                     (* bytes the disk still takes *)
  procs : list (N * Proc);
  tool : Cmd -> Node -> Node * bool;
                                (* a program run to its exit: what it leaves
                                   on disk and whether it exited with 0 *)
  events : list Event
}.

Definition set_fs (w : World) (t : Node) : World :=
  mkWorld t (cwd w) (TMPDIR w) (PATH w) (GOOS w) (rand w) (rand_pos w)
          (free w) (procs w) (tool w) (events w).

Definition set_free (w : World) (n : Z) : World :=
  mkWorld (fs w) (cwd w) (TMPDIR w) (PATH w) (GOOS w) (rand w) (rand_pos w)
          n (procs w) (tool w) (events w).

Definition set_rand_pos (w : World) (n : nat) : World :=
  mkWorld (fs w) (cwd w) (TMPDIR w) (PATH w) (GOOS w) (rand w) n
          (free w) (procs w) (tool w) (events w).

Definition set_procs (w : World) (ps : list (N * Proc)) : World :=
  mkWorld (fs w) (cwd w) (TMPDIR w) (PATH w) (GOOS w) (rand w) (rand_pos w)
          (free w) ps (tool w) (events w).

Definition add_event (w : World) (e : Event) : World :=
  mkWorld (fs w) (cwd w) (TMPDIR w) (PATH w) (GOOS w) (rand w) (rand_pos w)
          (free w) (procs w) (tool w) (events w ++ [e]).

(** *** Paths and the tree *)

(** The elements a path names from the root; the empty path names nothing.
    Resolution is lexical: [.] and [..] are worked out on the text. *)
Definition resolve (w : World) (path : string) : option (list string) :=
  if String.eqb path "" then None
  else Some (filepath.clean_elems true (filepath.elements path)
               (if filepath.rooted path then [] else rev (cwd w))).

Fixpoint assoc (name : string) (es : list (string * Node)) : option Node :=
  match es with
  | [] => None
  | (k, n) :: es' => if String.eqb k name then Some n else assoc name es'
  end.

Fixpoint set_entry (name : string) (n : Node) (es : list (string * Node))
  : list (string * Node) :=
  match es with
  | [] => [(name, n)]
  | (k, x) :: es' =>
      match String.compare name k with
      | Eq => (name, n) :: es'
      | Lt => (name, n) :: es
      | Gt => (k, x) :: set_entry name n es'
      end
  end.

Definition del_entry (name : string) (es : list (string * Node))
  : list (string * Node) :=
  filter (fun kn => negb (String.eqb (fst kn) name)) es.

Fixpoint lookup (p : list string) (t : Node) : option Node :=
  match p with
  | [] => Some t
  | name :: p' =>
      match t with
      | Dir es =>
          match assoc name es with
          | Some child => lookup p' child
          | None => None
          end
      | _ => None
      end
  end.

(** Puts [n] at [p], whose parent must be a directory of the tree. *)
Fixpoint put (p : list string) (n : Node) (t : Node) : option Node :=
  match p, t with
  | [], _ => None
  | [name], Dir es => Some (Dir (set_entry name n es))
  | name :: p', Dir es =>
      match assoc name es with
      | Some child =>
          match put p' n child with
          | Some child' => Some (Dir (set_entry name child' es))
          | None => None
          end
      | None => None
      end
  | _, _ => None
  end.

(** Removes the subtree at [p]; a path that names nothing changes
    nothing. *)
Fixpoint prune (p : list string) (t : Node) : Node :=
  match p, t with
  | [name], Dir es => Dir (del_entry name es)
  | name :: p', Dir es =>
      Dir (map (fun kn => if String.eqb (fst kn) name
                          then (fst kn, prune p' (snd kn)) else kn) es)
  | _, _ => t
  end.

(** [os.FileInfo] *)
Record FileInfo : Type := mkFileInfo {
  fi_Name : string;
  fi_Size : Z;
  fi_Perm : N;
  fi_node : Node            (* what kind of file it is *)
}.

Definition IsDir (fi : FileInfo) : bool :=
  match fi_node fi with Dir _ => true | _ => false end.

Definition info_of (name : string) (n : Node) : FileInfo :=
  match n with
  | File perm data => mkFileInfo name (len data) perm n
  | Dir _ => mkFileInfo name 0 448 n
  | _ => mkFileInfo name 0 420 n
  end.

(** [os.Lstat] and [os.Stat], which agree as the tree has no links. *)
Definition Lstat (path : string) (w : World) : FileInfo + error :=
  match resolve w path with
  | None => inr (ErrNotExist path)
  | Some p =>
      match lookup p (fs w) with
      | Some n => inl (info_of (filepath.Base path) n)
      | None => inr (ErrNotExist path)
      end
  end.

Definition exists_path (path : string) (w : World) : bool :=
  match Lstat path w with inl _ => true | inr _ => false end.

(** *** Files and directories *)

(** [os.Mkdir] *)
Definition Mkdir (path : string) (w : World) : World * option error :=
  match resolve w path with
  | None => (w, Some (ErrNotExist path))
  | Some p =>
      match lookup p (fs w) with
      | Some _ => (w, Some (ErrExist path))
      | None =>
          match put p (Dir []) (fs w) with
          | Some t => (set_fs w t, None)
          | None => (w, Some (ErrNotExist path))
          end
      end
  end.

(** [os.TempDir] *)
Definition os_TempDir (w : World) : string :=
  if String.eqb (TMPDIR w) "" then "/tmp" else TMPDIR w.

(** [nextSuffix] of [io/ioutil]: nine decimal digits of the next random
    number. *)
Definition nextSuffix (w : World) : string :=
  let r := rand w (rand_pos w) in
  drop 1 (NilEmpty.string_of_uint (N.to_uint (1000000000 + r mod 1000000000))).

(** The retry loop of [ioutil.TempDir]: a name that exists is tried again
    with the next suffix, [i] times at most. *)
Fixpoint TempDir_loop (i : nat) (dir pre : string) (last : error) (w : World)
  : World * (string + error) :=
  match i with
  | O => (w, inr last)
  | S i' =>
      let try := filepath.Join [dir; pre ++ nextSuffix w] in
      match Mkdir try (set_rand_pos w (S (rand_pos w))) with
      | (w', Some (ErrExist p)) => TempDir_loop i' dir pre (ErrExist p) w'
      | (w', Some e) => (w', inr e)
      | (w', None) => (w', inl try)
      end
  end.

(** [ioutil.TempDir] *)
Definition TempDir (dir pre : string) (w : World) : World * (string + error) :=
  let dir := if String.eqb dir "" then os_TempDir w else dir in
  TempDir_loop (100 * 100) dir pre (ErrExist dir) w.

(** [ioutil.WriteFile]: the file is created or truncated, then filled if
    the disk takes the bytes. *)
Definition WriteFile (filename data : string) (perm : N) (w : World)
  : World * option error :=
  match resolve w filename with
  | None => (w, Some (ErrNotExist filename))
  | Some p =>
      let perm' :=
        match lookup p (fs w) with
        | Some (File perm0 _) => Some perm0
        | Some _ => None
        | None => Some perm
        end in
      match perm' with
      | None => (w, Some (ErrPermission filename))
      | Some m =>
          match put p (File m "") (fs w) with
          | None => (w, Some (ErrNotExist filename))
          | Some t0 =>
              if len data <=? free w then
                match put p (File m data) t0 with
                | Some t => (set_free (set_fs w t) (free w - len data), None)
                | None => (set_fs w t0, Some (ErrNotExist filename))
                end
              else (set_fs w t0, Some (ErrNoSpace filename))
          end
      end
  end.

(** [os.RemoveAll]: the path and everything below it go; a path that names
    nothing is no error, the root cannot be removed. *)
Definition RemoveAll (path : string) (w : World) : World * option error :=
  match resolve w path with
  | None => (w, None)
  | Some [] => (w, Some (ErrPermission path))
  | Some p => (set_fs w (prune p (fs w)), None)
  end.

(** [os.Open] of a path for reading. *)
Definition Open (path : string) (w : World) : Node + error :=
  match resolve w path with
  | None => inr (ErrNotExist path)
  | Some p =>
      match lookup p (fs w) with
      | None => inr (ErrNotExist path)
      | Some (File perm data) =>
          if N.eqb (N.land perm 256) 0 then inr (ErrPermission path)
          else inl (File perm data)
      | Some n => inl n
      end
  end.

(** What reading an open file to its end yields. *)
Definition read_all (n : Node) : string + error :=
  match n with
  | File _ data => inl data
  | _ => inr (ErrorNew "read: is a directory")
  end.

(** *** Programs and processes *)

(** [findExecutable] of [os/exec] *)
Definition findExecutable (file : string) (w : World) : bool :=
  match Lstat file w with
  | inl fi => negb (IsDir fi) && negb (N.eqb (N.land (fi_Perm fi) 73) 0)
  | inr _ => false
  end.

Fixpoint LookPath_dirs (dirs : list string) (file : string) (w : World)
  : string + error :=
  match dirs with
  | [] => inr (ErrNotFound file)
  | dir :: rest =>
      let dir := if String.eqb dir "" then "." else dir in
      let path := filepath.Join [dir; file] in
      if findExecutable path w then inl path
      else LookPath_dirs rest file w
  end.

(** [exec.LookPath] *)
Definition LookPath (file : string) (w : World) : string + error :=
  if has_byte "/" file then
    if findExecutable file w then inl file else inr (ErrNotFound file)
  else LookPath_dirs (PATH w) file w.

(** [exec.Command] *)
Definition Command (name : string) (arg : list string) : Cmd :=
  mkCmd name (name :: arg) None None None.

Definition set_Stdout (c : Cmd) (s : Sink) : Cmd :=
  mkCmd (Path c) (Args c) (Some s) (Stderr c) (Process c).

Definition set_Stderr (c : Cmd) (s : Sink) : Cmd :=
  mkCmd (Path c) (Args c) (Stdout c) (Some s) (Process c).

Definition set_Process (c : Cmd) (pid : N) : Cmd :=
  mkCmd (Path c) (Args c) (Stdout c) (Stderr c) (Some pid).

Definition fresh_pid (ps : list (N * Proc)) : N :=
  N.succ (fold_right (fun kp m => N.max (fst kp) m) 0%N ps).

(** [Cmd.Start]: the program becomes a running process. *)
Definition Start (c : Cmd) (w : World) : World * (Cmd + error) :=
  match Process c with
  | Some _ => (w, inr (ErrorNew "exec: already started"))
  | None =>
      if findExecutable (Path c) w then
        let pid := fresh_pid (procs w) in
        let c' := set_Process c pid in
        (add_event (set_procs w ((pid, mkProc c' Running) :: procs w)) (Exec c),
         inl c')
      else (w, inr (ErrNotExist (Path c)))
  end.

(** [Cmd.Run]: the program is started and waited for. *)
Definition Run (c : Cmd) (w : World) : World * option error :=
  match Process c with
  | Some _ => (w, Some (ErrorNew "exec: already started"))
  | None =>
      if findExecutable (Path c) w then
        let '(t, ok) := tool w c (fs w) in
        (add_event (set_fs w t) (Exec c),
         if ok then None else Some (ErrExit (Args c)))
      else (w, Some (ErrNotExist (Path c)))
  end.

Fixpoint find_proc (pid : N) (ps : list (N * Proc)) : option Proc :=
  match ps with
  | [] => None
  | (k, p) :: ps' => if N.eqb k pid then Some p else find_proc pid ps'
  end.

Definition set_status (pid : N) (st : ProcStatus) (ps : list (N * Proc))
  : list (N * Proc) :=
  map (fun kp => if N.eqb (fst kp) pid
                 then (fst kp, mkProc (p_cmd (snd kp)) st) else kp) ps.

(** [Process.Kill]: a process that was waited for, or that the system does
    not know, is reported as finished. *)
Definition Process_Kill (c : Cmd) (w : World) : World * option error :=
  match Process c with
  | None => (w, Some ErrNilDeref)
  | Some pid =>
      match find_proc pid (procs w) with
      | Some p =>
          match p_status p with
          | Running => (set_procs w (set_status pid Zombie (procs w)), None)
          | Zombie => (w, None)
          | Reaped => (w, Some ErrFinished)
          end
      | None => (w, Some ErrFinished)
      end
  end.

(** [Cmd.Wait]: blocks until the process has exited and collects it. *)
Definition Wait (c : Cmd) (w : World) : World * option error :=
  match Process c with
  | None => (w, Some (ErrorNew "exec: not started"))
  | Some pid =>
      match find_proc pid (procs w) with
      | Some p =>
          match p_status p with
          | Reaped => (w, Some (ErrorNew "exec: Wait was already called"))
          | _ => (set_procs w (set_status pid Reaped (procs w)),
                  Some (ErrExit (Args c)))
          end
      | None => (w, Some ErrFinished)
      end
  end.

(** ** Package [fmt] *)

Fixpoint extra_args (args : list string) : string :=
  match args with
  | [] => ""
  | [a] => "string=" ++ a
  | a :: rest => "string=" ++ a ++ ", " ++ extra_args rest
  end.

(** [fmt.Sprintf] on string operands, for the verbs [%s] and [%%]; any
    other byte of the format is copied. *)
Fixpoint Sprintf (format : string) (args : list string) : string :=
  match format with
  | EmptyString =>
      match args with
      | [] => ""
      | _ => "%!(EXTRA " ++ extra_args args ++ ")"
      end
  | String c rest =>
      if Ascii.eqb c "%" then
        match rest with
        | String v rest' =>
            if Ascii.eqb v "s" then
              match args with
              | a :: args' => a ++ Sprintf rest' args'
              | [] => "%!s(MISSING)" ++ Sprintf rest' []
              end
            else if Ascii.eqb v "%" then String "%" (Sprintf rest' args)
            else String c (Sprintf rest args)
        | EmptyString => "%!(NOVERB)"
        end
      else String c (Sprintf rest args)
  end.

(** ** Package [archive/tar]

    The archive is kept at the level of its records: a header record, the
    bytes of a payload, the end-of-archive marker.  The 512-byte block
    encoding (padding, checksums, the choice between the USTAR, PAX and GNU
    forms) is the library's own business; which headers it can encode at
    all is the parameter [accepts]. *)

Module tar.

Inductive Flag : Type :=
| TypeReg | TypeRegA | TypeLink | TypeSymlink
| TypeChar | TypeBlock | TypeDir | TypeFifo.

(** [tar.Header]; a field the code leaves out has Go's zero value, which
    is [TypeRegA] for the type flag. *)
Record Header : Type := mkHeader {
  Name : string;
  Mode : Z;
  Size : Z;
  Typeflag : Flag
}.

Definition set_Name (h : Header) (name : string) : Header :=
  mkHeader name (Mode h) (Size h) (Typeflag h).

Inductive Item : Type :=
| IHeader (h : Header)
| IData (b : string)
| ITrailer.

(** [tar.Writer] over a sink that takes every byte: what was written, how
    many bytes the current entry still expects, the sticky error. *)
Record Writer : Type := mkWriter {
  out : list Item;
  nb : Z;
  err : option error
}.

Definition NewWriter : Writer := mkWriter [] 0 None.

Definition isHeaderOnlyType (f : Flag) : bool :=
  match f with
  | TypeLink | TypeSymlink | TypeChar | TypeBlock | TypeDir | TypeFifo => true
  | _ => false
  end.

Definition isRegular (f : Flag) : bool :=
  match f with
  | TypeReg | TypeRegA => true
  | _ => false
  end.

Fixpoint has_suffix_slash (s : string) : bool :=
  match s with
  | EmptyString => false
  | String c EmptyString => Ascii.eqb c "/"
  | String _ rest => has_suffix_slash rest
  end.

(** [tar.FileInfoHeader] *)
Definition FileInfoHeader (fi : FileInfo) (link : string) : Header + error :=
  match fi_node fi with
  | File _ _ => inl (mkHeader (fi_Name fi) (Z.of_N (fi_Perm fi)) (fi_Size fi) TypeReg)
  | Dir _ => inl (mkHeader (fi_Name fi ++ "/") (Z.of_N (fi_Perm fi)) 0 TypeDir)
  | Fifo => inl (mkHeader (fi_Name fi) (Z.of_N (fi_Perm fi)) 0 TypeFifo)
  | Socket => inr (ErrorNew "archive/tar: sockets not supported")
  end.

Section Writer.

Variable accepts : Header -> bool.

Definition Flush (tw : Writer) : Writer * option error :=
  match err tw with
  | Some e => (tw, Some e)
  | None =>
      if 0 <? nb tw
      then (tw, Some (ErrorNew "archive/tar: missed writing bytes"))
      else (tw, None)
  end.

(** [Writer.WriteHeader]: the legacy flag [TypeRegA] becomes [TypeReg]
    or [TypeDir]; a header-only entry expects no payload. *)
Definition WriteHeader (hdr : Header) (tw : Writer)
  : Writer * option error :=
  match Flush tw with
  | (tw, Some e) => (tw, Some e)
  | (tw, None) =>
      let flag :=
        match Typeflag hdr with
        | TypeRegA =>
            if has_suffix_slash (Name hdr) then TypeDir else TypeReg
        | f => f
        end in
      let size := if isHeaderOnlyType flag then 0 else Size hdr in
      let h := mkHeader (Name hdr) (Mode hdr) size flag in
      if accepts h
      then (mkWriter (out tw ++ [IHeader h]) size None, None)
      else (tw, Some (ErrorNew "archive/tar: cannot encode header"))
  end.

(** [Writer.Write]: bytes beyond the size of the header are cut off and
    reported. *)
Definition Write (b : string) (tw : Writer) : Writer * option error :=
  match err tw with
  | Some e => (tw, Some e)
  | None =>
      let overwrite := nb tw <? len b in
      let b := if overwrite then take (Z.to_nat (nb tw)) b else b in
      let tw :=
        if 0 <? len b
        then mkWriter (out tw ++ [IData b]) (nb tw - len b) None
        else tw in
      (tw, if overwrite then Some ErrWriteTooLong else None)
  end.

(** [Writer.Close] *)
Definition Close (tw : Writer) : Writer * option error :=
  match err tw with
  | Some ErrWriteAfterClose => (tw, None)
  | Some e => (tw, Some e)
  | None =>
      match Flush tw with
      | (tw, Some e) => (mkWriter (out tw) (nb tw) (Some ErrWriteAfterClose), Some e)
      | (tw, None) =>
          (mkWriter (out tw ++ [ITrailer]) (nb tw) (Some ErrWriteAfterClose), None)
      end
  end.

(** [io.Copy] into the writer from a source holding [data]: nothing is
    written for an empty source.  (A long source arrives in several
    [Write] calls; the records are the same once joined.) *)
Definition Copy (data : string) (tw : Writer) : Writer * option error :=
  if String.eqb data "" then (tw, None) else Write data tw.

End Writer.

(** *** Reading an archive back *)

Fixpoint payload (items : list Item) : string :=
  match items with
  | IData b :: rest => b ++ payload rest
  | _ => ""
  end.

(** The entries up to the end-of-archive marker, each with its bytes. *)
Fixpoint entries (items : list Item) : list (Header * string) :=
  match items with
  | [] => []
  | ITrailer :: _ => []
  | IHeader h :: rest => (h, payload rest) :: entries rest
  | IData _ :: rest => entries rest
  end.

End tar.

(** ** The program *)

Definition nl : string := String "010" "".
Definition quote : string := String "034" "".

(** The configuration template [toml]. *)
Definition toml : string :=
  nl ++
  "state = " ++ quote ++ "%s/state" ++ quote ++ nl ++
  "root = " ++ quote ++ "%s/root" ++ quote ++ nl ++
  "snapshotter = " ++ quote ++ "%s" ++ quote ++ nl ++
  "subreaper = false" ++ nl ++
  "oom_score = 0" ++ nl ++
  nl ++
  "[grpc]" ++ nl ++
  "  address = " ++ quote ++ "%s/containerd.sock" ++ quote ++ nl ++
  "  uid = -1" ++ nl ++
  "  gid = -1" ++ nl ++
  nl ++
  "[debug]" ++ nl ++
  "  address = " ++ quote ++ "%s/debug.sock" ++ quote ++ nl ++
  "  level = " ++ quote ++ "info" ++ quote ++ nl ++
  nl ++
  "[metrics]" ++ nl ++
  "  address = " ++ quote ++ quote ++ nl.

Record ctd : Type := mkCtd {
  cmd : Cmd;
  w : Sink;
  dir : string;
  shutdown : bool
}.

Definition set_shutdown (c : ctd) (b : bool) : ctd :=
  mkCtd (cmd c) (w c) (dir c) b.

(** [NewContainerd] returns a new instance of containerd running in an
    isolated directory. *)
Definition NewContainerd (w : Sink) (wd : World) : World * (ctd + error) :=
  match TempDir "" "moby-ctd" wd with
  | (wd, inr e) => (wd, inr e)
  | (wd, inl dir) =>
      let snapshotter :=
        if String.eqb (GOOS wd) "darwin" then "naive" else "overlay" in
      let config := Sprintf toml [dir; dir; snapshotter; dir; dir] in
      let configPath := filepath.Join [dir; "config.toml"] in
      match WriteFile configPath config 384 wd with
      | (wd, Some e) => (wd, inr e)
      | (wd, None) =>
          match LookPath "containerd" wd with
          | inr _ => (wd, inr (ErrorNew "Cannot find containerd in path"))
          | inl containerd =>
              let cmd := Command containerd ["--config"; configPath] in
              let cmd := set_Stderr cmd w in
              match Start cmd wd with
              | (wd, inr e) => (wd, inr e)
              | (wd, inl cmd) => (wd, inl (mkCtd cmd w dir false))
              end
          end
      end
  end.

(** [Kill] kills containerd but does not remove the directory. *)
Definition Kill (c : ctd) (wd : World) : ctd * World * option error :=
  match Process_Kill (cmd c) wd with
  | (wd, Some e) => (c, wd, Some e)
  | (wd, None) =>
      let '(wd, _) := Wait (cmd c) wd in
      (set_shutdown c true, wd, None)
  end.

(** [Close] removes containerd and the directory. *)
Definition Close (c : ctd) (wd : World) : ctd * World * option error :=
  let '(c, wd, killed) :=
    if negb (shutdown c) then Kill c wd else (c, wd, None) in
  match killed with
  | Some e => (c, wd, Some e)
  | None =>
      match RemoveAll (dir c) wd with
      | (wd, Some e) => (c, wd, Some e)
      | (wd, None) => (c, wd, None)
      end
  end.

(** [Fetch] fetches an image into the content store. *)
Definition Fetch (c : ctd) (repo : string) (trust : bool) (wd : World)
  : World * option error :=
  let wd := add_event wd (Debugf (Sprintf "fetch: %s" [repo])) in
  match LookPath "dist" wd with
  | inr _ => (wd, Some (ErrorNew "Cannot find dist in path"))
  | inl dist =>
      let root := filepath.Join [dir c; "root"] in
      let address := filepath.Join [dir c; "containerd.sock"] in
      let cmd := Command dist ["--address"; address; "--root"; root;
                               "fetch"; ImageName repo] in
      let cmd := set_Stderr cmd (w c) in
      let cmd := set_Stdout cmd (w c) in
      match Run cmd wd with
      | (wd, Some e) => (wd, Some e)
      | (wd, None) => (wd, None)
      end
  end.

(** Modelled from the spec: the helper that writes the directory headers
    of a logical path, as the specification describes it.  It walks the
    segments of a path that ends in a separator and writes a directory
    header for each non-empty prefix; a header that cannot be written
    aborts with its error. *)
Fixpoint tarPrefix_loop (accepts : tar.Header -> bool) (mkdir : string)
                        (dirs : list string) (tw : tar.Writer)
  : tar.Writer * option error :=
  match dirs with
  | [] => (tw, None)
  | d :: rest =>
      let mkdir := mkdir ++ d in
      if String.eqb mkdir "" then tarPrefix_loop accepts (mkdir ++ "/") rest tw
      else
        match tar.WriteHeader accepts
                (tar.mkHeader mkdir 493 0 tar.TypeDir) tw with
        | (tw, Some e) => (tw, Some e)
        | (tw, None) => tarPrefix_loop accepts (mkdir ++ "/") rest tw
        end
  end.

(** Modelled from the spec: [tarPrefix] on a path, the directories being
    the elements of the path before its last separator. *)
Definition tarPrefix_spec (accepts : tar.Header -> bool) (path : string)
                          (tw : tar.Writer) : tar.Writer * option error :=
  tarPrefix_loop accepts "" (removelast (filepath.elements path)) tw.

Section Archives.

Variable accepts : tar.Header -> bool.

(** [tarPrefix] is a function of the package that another file defines;
    [Store] and [Bundle] take it as it comes. *)
Variable tarPrefix : string -> tar.Writer -> tar.Writer * option error.

(** *** [filepath.Walk] *)

Definition WalkFunc : Type :=
  string -> option FileInfo -> option error -> tar.Writer ->
  tar.Writer * option error.

(** [walk] of [path/filepath].  The entries of a directory are met in the
    order of its listing; each is found again under the joined name. *)
Fixpoint walk (path name : string) (n : Node) (walkFn : WalkFunc)
              (tw : tar.Writer) {struct n} : tar.Writer * option error :=
  let info := info_of name n in
  match n with
  | Dir names =>
      match walkFn path (Some info) None tw with
      | (tw, Some err1) => (tw, Some err1)
      | (tw, None) =>
          (fix range (names : list (string * Node)) (tw : tar.Writer)
             : tar.Writer * option error :=
             match names with
             | [] => (tw, None)
             | (name, child) :: rest =>
                 let filename := filepath.Join [path; name] in
                 match walk filename name child walkFn tw with
                 | (tw, Some e) =>
                     if negb (IsDir (info_of name child))
                        || negb (is_SkipDir e)
                     then (tw, Some e)
                     else range rest tw
                 | (tw, None) => range rest tw
                 end
             end) names tw
      end
  | _ => walkFn path (Some info) None tw
  end.

(** [filepath.Walk] *)
Definition Walk (root : string) (walkFn : WalkFunc) (wd : World)
                (tw : tar.Writer) : tar.Writer * option error :=
  let '(tw, e) :=
    match resolve wd root with
    | None => walkFn root None (Some (ErrNotExist root)) tw
    | Some p =>
        match lookup p (fs wd) with
        | None => walkFn root None (Some (ErrNotExist root)) tw
        | Some n => walk root (filepath.Base root) n walkFn tw
        end
    end in
  match e with
  | Some SkipDir => (tw, None)
  | _ => (tw, e)
  end.

(** The function [Store] hands to [filepath.Walk]. *)
Definition Store_walkFn (wd : World) (src pre : string) : WalkFunc :=
  fun file fi err tw =>
    match err with
    | Some e => (tw, Some e)
    | None =>
        match fi with
        | None => (tw, Some ErrNilDeref)
        | Some fi =>
            match tar.FileInfoHeader fi (fi_Name fi) with
            | inr e => (tw, Some e)
            | inl hdr =>
                (* remove temporary path *)
                let hdr := tar.set_Name hdr
                  (strings.TrimPrefix (strings.Replace file src "" (-1))
                                      filepath.Separator) in
                (* add correct path *)
                let hdr := tar.set_Name hdr
                  (filepath.Join [pre; tar.Name hdr]) in
                match tar.WriteHeader accepts hdr tw with
                | (tw, Some e) => (tw, Some e)
                | (tw, None) =>
                    match tar.Typeflag hdr with
                    | tar.TypeReg | tar.TypeSymlink | tar.TypeLink =>
                        match Open file wd with
                        | inr e => (tw, Some e)
                        | inl f =>
                            match read_all f with
                            | inr e => (tw, Some e)
                            | inl data =>
                                match tar.Copy data tw with
                                | (tw, Some e) => (tw, Some e)
                                | (tw, None) => (tw, None)
                                end
                            end
                        end
                    | _ => (tw, None)
                    end
                end
            end
        end
    end.

(** [Store] returns a blob containing a tarball of the content store:
    what it wrote to its sink, and its error. *)
Definition Store (c : ctd) (wd : World) : list tar.Item * option error :=
  let pre := "var/lib/containerd/" in
  let tw := tar.NewWriter in
  let src := filepath.Join [dir c; "root"] in
  let '(tw, e) :=
    match tarPrefix pre tw with
    | (tw, Some e) => (tw, Some e)
    | (tw, None) => Walk src (Store_walkFn wd src pre) wd tw
    end in
  (* defer tw.Close() *)
  let '(tw, _) := tar.Close tw in
  (tar.out tw, e).

(** [Bundle] outputs an image name and config file, and adds the image to
    the image store. *)
Definition Bundle (c : ctd) (path image config : string) (trust : bool)
                  (wd : World) : World * (list tar.Item * option error) :=
  let wd := add_event wd
    (Debugf (Sprintf "bundle: %s %s cfg: %s" [path; image; config])) in
  let tw := tar.NewWriter in
  match tarPrefix (path ++ "/") tw with
  | (tw, Some e) => (wd, ([], Some e))
  | (tw, None) =>
  let hdr := tar.mkHeader (path ++ "/" ++ "config.json") 420 (len config)
                          tar.TypeRegA in
  match tar.WriteHeader accepts hdr tw with
  | (tw, Some e) => (wd, ([], Some e))
  | (tw, None) =>
  match tar.Copy config tw with
  | (tw, Some e) => (wd, ([], Some e))
  | (tw, None) =>
  let hdr := tar.mkHeader (path ++ "/" ++ "image") 420 (len image)
                          tar.TypeRegA in
  match tar.WriteHeader accepts hdr tw with
  | (tw, Some e) => (wd, ([], Some e))
  | (tw, None) =>
  match tar.Copy image tw with
  | (tw, Some e) => (wd, ([], Some e))
  | (tw, None) =>
  match tar.Close tw with
  | (tw, Some e) => (wd, ([], Some e))
  | (tw, None) =>
  match Fetch c image trust wd with
  | (wd, Some e) => (wd, ([], Some e))
  | (wd, None) => (wd, (tar.out tw, None))
  end end end end end end end.

End Archives.

(** * Vocabulary of the statements *)

(** Where the first [c] of [s] is, or that there is none. *)
Inductive first_byte (c : ascii) (s : string) : option nat -> Prop :=
| first_none : count_byte c s = O -> first_byte c s None
| first_some (i : nat) :
    count_byte c (take i s) = O ->
    s = take i s ++ String c (drop (S i) s) ->
    first_byte c s (Some i).

(** The prefix [ImageName] puts in front of a name. *)
Definition qualified (image : string) : string :=
  match count_byte "/" image with
  | 0%nat => "docker.io/library/" ++ image
  | 1%nat => "docker.io/" ++ image
  | _ => image
  end.

(** The steps of [Bundle] up to [tw.Close()], on their own: the archive it
    has built when it comes to call [Fetch], or the error that stopped it. *)
Definition Bundle_tar (accepts : tar.Header -> bool)
                      (tarPrefix : string -> tar.Writer ->
                                   tar.Writer * option error)
                      (path image config : string) : list tar.Item + error :=
  match tarPrefix (path ++ "/") tar.NewWriter with
  | (tw, Some e) => inr e
  | (tw, None) =>
  match tar.WriteHeader accepts
          (tar.mkHeader (path ++ "/" ++ "config.json") 420 (len config)
                        tar.TypeRegA) tw with
  | (tw, Some e) => inr e
  | (tw, None) =>
  match tar.Copy config tw with
  | (tw, Some e) => inr e
  | (tw, None) =>
  match tar.WriteHeader accepts
          (tar.mkHeader (path ++ "/" ++ "image") 420 (len image)
                        tar.TypeRegA) tw with
  | (tw, Some e) => inr e
  | (tw, None) =>
  match tar.Copy image tw with
  | (tw, Some e) => inr e
  | (tw, None) =>
  match tar.Close tw with
  | (tw, Some e) => inr e
  | (tw, None) => inl (tar.out tw)
  end end end end end end.

(** The debug line [Bundle] logs before anything else. *)
Definition Bundle_logged (path image config : string) (wd : World) : World :=
  add_event wd (Debugf (Sprintf "bundle: %s %s cfg: %s" [path; image; config])).

(** The regular files of an archive, by name and content, in order. *)
Definition regular_files (items : list tar.Item) : list (string * string) :=
  map (fun e => (tar.Name (fst e), snd e))
      (filter (fun e => tar.isRegular (tar.Typeflag (fst e)))
              (tar.entries items)).

(** A writer between two entries: no error, no payload outstanding. *)
Definition idle (tw : tar.Writer) : Prop :=
  tar.err tw = None /\ tar.nb tw = 0.

(** What [Bundle] relies on in [tarPrefix]: when it returns no error on an
    idle writer it has written directory headers only, and the writer is
    idle again. *)
Definition writes_directories
    (tarPrefix : string -> tar.Writer -> tar.Writer * option error) : Prop :=
  forall path tw tw',
    idle tw ->
    tarPrefix path tw = (tw', None) ->
    idle tw' /\
    exists hs,
      tar.out tw' = (tar.out tw ++ map tar.IHeader hs)%list /\
      Forall (fun h => tar.Typeflag h = tar.TypeDir) hs.

(** The parts of the world that neither the disk nor the random source
    touch. *)
Definition same_host (w w' : World) : Prop :=
  cwd w' = cwd w /\ GOOS w' = GOOS w /\ PATH w' = PATH w /\
  TMPDIR w' = TMPDIR w /\ procs w' = procs w /\ events w' = events w.

Definition read_file (path : string) (w : World) : option string :=
  match resolve w path with
  | Some p =>
      match lookup p (fs w) with
      | Some (File _ data) => Some data
      | _ => None
      end
  | None => None
  end.

(** The configuration document with its five slots filled. *)
Definition rendered_config (state root snapshotter grpc debug : string)
  : string :=
  nl ++
  "state = " ++ quote ++ state ++ quote ++ nl ++
  "root = " ++ quote ++ root ++ quote ++ nl ++
  "snapshotter = " ++ quote ++ snapshotter ++ quote ++ nl ++
  "subreaper = false" ++ nl ++
  "oom_score = 0" ++ nl ++
  nl ++
  "[grpc]" ++ nl ++
  "  address = " ++ quote ++ grpc ++ quote ++ nl ++
  "  uid = -1" ++ nl ++
  "  gid = -1" ++ nl ++
  nl ++
  "[debug]" ++ nl ++
  "  address = " ++ quote ++ debug ++ quote ++ nl ++
  "  level = " ++ quote ++ "info" ++ quote ++ nl ++
  nl ++
  "[metrics]" ++ nl ++
  "  address = " ++ quote ++ quote ++ nl.

(** A plain file name: one element, neither empty nor [.] nor [..]. *)
Definition plain (e : string) : Prop :=
  e <> "" /\ e <> "." /\ e <> ".." /\ count_byte "/" e = 0%nat.

(** The stack [filepath.clean_elems] holds when the elements run out. *)
Fixpoint scan (isRooted : bool) (elems stack : list string) : list string :=
  match elems with
  | [] => stack
  | e :: es =>
      if String.eqb e "" || String.eqb e "." then scan isRooted es stack
      else if String.eqb e ".." then
        match stack with
        | top :: below =>
            if String.eqb top ".."
            then scan isRooted es (if isRooted then stack else ".." :: stack)
            else scan isRooted es below
        | [] => scan isRooted es (if isRooted then [] else [".."])
        end
      else scan isRooted es (e :: stack)
  end.

(** A stack as [Clean] leaves it: plain names on top of the [..] that a
    relative path could not resolve. *)
Definition canon (isRooted : bool) (stack : list string) : Prop :=
  exists k reals,
    stack = (rev reals ++ repeat ".." k)%list /\
    Forall plain reals /\
    (isRooted = true -> k = 0%nat).

(** An instance that [NewContainerd] returned. *)
Definition created (c : ctd) : Prop :=
  exists sink wd wd', NewContainerd sink wd = (wd', inl c).

(** *** Sample worlds *)

Definition any_header (h : tar.Header) : bool := true.

Definition sample_tarPrefix : string -> tar.Writer -> tar.Writer * option error :=
  tarPrefix_spec any_header.

Definition idle_tool (c : Cmd) (t : Node) : Node * bool := (t, true).

Definition sample_rand (n : nat) : N := (N.of_nat n + 41)%N.

(** A host with both programs installed. *)
Definition world_ok : World :=
  mkWorld
    (Dir [("tmp", Dir []);
          ("usr", Dir [("bin", Dir [("containerd", File 493 "ELF");
                                    ("dist", File 493 "ELF")])])])
    [] "" ["/usr/bin"] "linux" sample_rand 0 10000 [] idle_tool [].

(** A host with neither. *)
Definition world_bare : World :=
  mkWorld
    (Dir [("tmp", Dir []); ("usr", Dir [("bin", Dir [])])])
    [] "" ["/usr/bin"] "linux" sample_rand 0 10000 [] idle_tool [].

Definition sample_ctd : ctd :=
  mkCtd (mkCmd "/usr/bin/containerd"
               ["/usr/bin/containerd"; "--config"; "/tmp/d/config.toml"]
               None (Some 7%nat) (Some 1%N))
        7%nat "/tmp/d" false.

(** An instance started on [world_ok], and the world it runs in. *)
Definition world_started : World := fst (NewContainerd 7%nat world_ok).

Definition ctd_started : ctd :=
  match snd (NewContainerd 7%nat world_ok) with
  | inl c => c
  | inr _ => sample_ctd
  end.

(** The same host running Darwin, and the instance started on it. *)
Definition world_darwin : World :=
  mkWorld (fs world_ok) [] "" ["/usr/bin"] "darwin" sample_rand 0 10000 []
          idle_tool [].

Definition ctd_darwin : ctd :=
  match snd (NewContainerd 7%nat world_darwin) with
  | inl c => c
  | inr _ => sample_ctd
  end.

(** A fetch that leaves in the content store of the instance, next to a
    file [a], a regular file whose own path below the store spells the path
    of the store again. *)
Definition crafted_store : Node :=
  Dir [("a", File 420 "hello");
       ("tmp", Dir [("moby-ctd000000041", Dir [("root", File 420 "x")])])].

Definition crafted_fetch (c : Cmd) (t : Node) : Node * bool :=
  match put ["tmp"; "moby-ctd000000041"; "root"] crafted_store t with
  | Some t' => (t', true)
  | None => (t, false)
  end.

Definition world_crafted : World :=
  mkWorld (fs world_ok) [] "" ["/usr/bin"] "linux" sample_rand 0 10000 []
          crafted_fetch [].

(** The instance started on [world_crafted], and the world after it has
    fetched an image. *)
Definition ctd_crafted : ctd :=
  match snd (NewContainerd 7%nat world_crafted) with
  | inl c => c
  | inr _ => sample_ctd
  end.

Definition world_fetched : World :=
  fst (Fetch ctd_crafted "alpine" false
             (fst (NewContainerd 7%nat world_crafted))).

(** *** Paths, programs and the content store *)

(** [path] names the directory [d] or something below it. *)
Definition under (wd : World) (d path : string) : Prop :=
  exists p r, resolve wd d = Some p /\ resolve wd path = Some (p ++ r)%list.

(** The programs started so far, in order. *)
Fixpoint programs (es : list Event) : list Cmd :=
  match es with
  | [] => []
  | Exec c :: rest => c :: programs rest
  | Debugf _ :: rest => programs rest
  end.

Definition started (wd : World) : list Cmd := programs (events wd).

(** The command [Fetch] builds for an instance and a reference, with the
    fetch tool at [dist]. *)
Definition fetch_command (dist : string) (c : ctd) (repo : string) : Cmd :=
  mkCmd dist
        [dist; "--address"; filepath.Join [dir c; "containerd.sock"];
         "--root"; filepath.Join [dir c; "root"]; "fetch"; ImageName repo]
        (Some (w c)) (Some (w c)) None.













(** A store with a directory, files in it and below it, and a pipe. *)
Definition sample_store : Node :=
  Dir [("blobs", Dir [("sha256", Dir [("ab", File 420 "layer")])]);
       ("empty", File 384 "");
       ("pipe", Fifo)].

Definition world_stored : World :=
  match put ["tmp"; "moby-ctd000000041"; "root"] sample_store
            (fs world_started) with
  | Some t => set_fs world_started t
  | None => world_started
  end.

(** * Properties *)

(** ** Bytes and splitting *)

Lemma has_byte_count (c : ascii) (s : string) :
  has_byte c s = negb (Nat.eqb (count_byte c s) 0).
Proof.
  induction s as [|d s IH]; simpl; [reflexivity|].
  destruct (Ascii.eqb d c); simpl; [reflexivity|exact IH].
Qed.

Lemma count_byte_app (c : ascii) (s t : string) :
  count_byte c (s ++ t) = (count_byte c s + count_byte c t)%nat.
Proof.
  induction s as [|d s IH]; simpl; [reflexivity|].
  rewrite IH. lia.
Qed.

Lemma has_byte_app (c : ascii) (s t : string) :
  has_byte c (s ++ t) = has_byte c s || has_byte c t.
Proof.
  induction s as [|d s IH]; simpl; [reflexivity|].
  rewrite IH. now rewrite orb_assoc.
Qed.

Lemma append_assoc (s t u : string) : (s ++ t) ++ u = s ++ (t ++ u).
Proof. induction s as [|c s IH]; simpl; [reflexivity|now rewrite IH]. Qed.

Lemma append_nil_r (s : string) : s ++ "" = s.
Proof. induction s as [|c s IH]; simpl; [reflexivity|now rewrite IH]. Qed.

Lemma prefix_byte (c : ascii) (s : string) :
  String.prefix (String c "") s =
  match s with
  | EmptyString => false
  | String d _ => Ascii.eqb d c
  end.
Proof.
  destruct s as [|d s]; simpl; [reflexivity|].
  destruct (ascii_dec c d) as [->|n].
  - rewrite Ascii.eqb_refl. now destruct s.
  - symmetry. apply Ascii.eqb_neq. congruence.
Qed.

Lemma index_nat_byte (c : ascii) (s : string) :
  first_byte c s (strings.index_nat s (String c "")).
Proof.
  induction s as [|d s IH].
  - simpl. now constructor.
  - cbn [strings.index_nat]. rewrite prefix_byte.
    destruct (Ascii.eqb d c) eqn:E.
    + apply Ascii.eqb_eq in E. subst d. now constructor.
    + destruct IH as [H0|i Hi Hs]; simpl.
      * constructor. simpl. now rewrite E.
      * constructor; simpl; [now rewrite E|f_equal; exact Hs].
Qed.

Lemma genSplit_loop_byte (c : ascii) (n : nat) :
  forall s,
    let parts := strings.genSplit_loop n s (String c "") 0 in
    List.length parts = Nat.min (S n) (S (count_byte c s)) /\
    strings.Join parts (String c "") = s.
Proof.
  induction n as [|n IH]; intros s; cbn [strings.genSplit_loop].
  - simpl. split; [lia|reflexivity].
  - unfold strings.Index.
    destruct (index_nat_byte c s) as [H0|i Hi Hs].
    + simpl. rewrite H0. split; reflexivity.
    + replace (Z.of_nat i <? 0) with false by (symmetry; apply Z.ltb_ge; lia).
      rewrite Nat2Z.id, Nat.add_0_r.
      replace (i + String.length (String c ""))%nat with (S i) by (simpl; lia).
      specialize (IH (drop (S i) s)). cbv zeta in IH. destruct IH as [IHl IHj].
      split.
      * cbn [List.length]. rewrite IHl.
        rewrite Hs at 2. rewrite count_byte_app, Hi.
        cbn [count_byte]. rewrite Ascii.eqb_refl. lia.
      * cbn [strings.Join].
        destruct (strings.genSplit_loop n (drop (S i) s) (String c "") 0)
          as [|p ps] eqn:E; [simpl in IHl; lia|].
        rewrite IHj. simpl. symmetry. exact Hs.
Qed.





(** [SplitN] on a one-byte separator with a positive bound. *)
Lemma SplitN_byte (c : ascii) (s : string) (n : nat) :
  let parts := strings.SplitN s (String c "") (Z.of_nat (S n)) in
  List.length parts = Nat.min (S n) (S (count_byte c s)) /\
  strings.Join parts (String c "") = s.
Proof.
  unfold strings.SplitN, strings.genSplit.
  replace (Z.of_nat (S n) =? 0) with false by (symmetry; apply Z.eqb_neq; lia).
  replace (Z.of_nat (S n) <? 0) with false by (symmetry; apply Z.ltb_ge; lia).
  cbn [String.eqb]. 
  replace (Z.to_nat (Z.of_nat (S n) - 1)) with n by lia.
  apply genSplit_loop_byte.
Qed.

Lemma ImageName_eq (image : string) :
  ImageName image =
  if has_byte ":" (qualified image) then qualified image
  else qualified image ++ ":latest".
Proof.
  unfold ImageName.
  destruct (SplitN_byte "/" image 2) as [Hl _]. cbv zeta in Hl.
  change (Z.of_nat 3) with 3 in Hl. rewrite Hl.
  assert (Hq : match Nat.min 3 (S (count_byte "/" image)) with
               | 1%nat => "docker.io/library/" ++ image
               | 2%nat => "docker.io/" ++ image
               | _ => image
               end = qualified image).
  { unfold qualified.
    destruct (count_byte "/" image) as [|[|[|k]]]; reflexivity. }
  rewrite Hq.
  destruct (SplitN_byte ":" (qualified image) 1) as [Hc _]. cbv zeta in Hc.
  change (Z.of_nat 2) with 2 in Hc. rewrite Hc.
  rewrite has_byte_count.
  destruct (count_byte ":" (qualified image)) as [|k]; reflexivity.
Qed.

(** C1: [ImageName] cuts its argument at ['/'] into at most three parts
    (one more than the number of slashes, up to three, and joining them
    with ['/'] gives the argument back), puts [docker.io/library/] in front
    of a one-part name and [docker.io/] in front of a two-part name, leaves
    a three-part name as it is, and then appends [:latest] exactly when the
    name so far holds no [':'].  It is a total function; the three names of
    the specification come out as stated. *)
Theorem ImageName_normalizes (image : string) :
  let parts := strings.SplitN image "/" 3 in
  let named :=
    match List.length parts with
    | 1%nat => "docker.io/library/" ++ image
    | 2%nat => "docker.io/" ++ image
    | _ => image
    end in
  (List.length parts <= 3)%nat /\
  List.length parts = Nat.min 3 (S (count_byte "/" image)) /\
  strings.Join parts "/" = image /\
  ImageName image = (if has_byte ":" named then named else named ++ ":latest") /\
  ImageName "alpine" = "docker.io/library/alpine:latest" /\
  ImageName "library/alpine" = "docker.io/library/alpine:latest" /\
  ImageName "docker.io/library/alpine:3.5" = "docker.io/library/alpine:3.5".
Proof.
  intros parts named.
  destruct (SplitN_byte "/" image 2) as [Hl Hj].
  change (strings.SplitN image "/" (Z.of_nat 3)) with parts in Hl, Hj.
  cbv zeta in Hl, Hj.
  assert (Hn : named = qualified image).
  { unfold named, qualified. rewrite Hl.
    destruct (count_byte "/" image) as [|[|[|k]]]; reflexivity. }
  repeat split; try reflexivity.
  - rewrite Hl. lia.
  - exact Hl.
  - exact Hj.
  - rewrite Hn. apply ImageName_eq.
Qed.

(** C10: a two-segment name whose first segment holds a [':'], such as
    [localhost:5000/alpine], gets [docker.io/] in front and nothing behind:
    the colon of the port passes for a tag, so [:latest] is not appended. *)
Theorem ImageName_registry_port (host name : string) :
  has_byte ":" host = true ->
  count_byte "/" host = 0%nat ->
  count_byte "/" name = 0%nat ->
  ImageName (host ++ "/" ++ name) = "docker.io/" ++ host ++ "/" ++ name.
Proof.
  intros Hc Hh Hn.
  rewrite ImageName_eq.
  assert (Hq : qualified (host ++ "/" ++ name)
               = "docker.io/" ++ host ++ "/" ++ name).
  { unfold qualified. rewrite !count_byte_app, Hh, Hn. reflexivity. }
  rewrite Hq, !has_byte_app, Hc. reflexivity.
Qed.

Lemma ImageName_registry_port_witness :
  has_byte ":" "localhost:5000" = true /\
  ImageName ("localhost:5000" ++ "/" ++ "alpine")
  = "docker.io/" ++ "localhost:5000" ++ "/" ++ "alpine".
Proof.
  split; [reflexivity|].
  apply (ImageName_registry_port "localhost:5000" "alpine"); reflexivity.
Defined.

(** ** Cleaned paths *)

Lemma clean_elems_scan r l : forall st,
  filepath.clean_elems r l st = rev (scan r l st).
Proof.
  induction l as [|e es IH]; intros st; simpl; [reflexivity|].
  destruct (String.eqb e "" || String.eqb e "."); [apply IH|].
  destruct (String.eqb e ".."); [|apply IH].
  destruct st as [|top below]; [apply IH|].
  destruct (String.eqb top ".."); apply IH.
Qed.

Lemma scan_app r l1 : forall l2 st,
  scan r (l1 ++ l2) st = scan r l2 (scan r l1 st).
Proof.
  induction l1 as [|e es IH]; intros l2 st; simpl; [reflexivity|].
  destruct (String.eqb e "" || String.eqb e "."); [apply IH|].
  destruct (String.eqb e ".."); [|apply IH].
  destruct st as [|top below]; [apply IH|].
  destruct (String.eqb top ".."); apply IH.
Qed.

Lemma elements_nonempty s : filepath.elements s <> [].
Proof.
  destruct s as [|c s]; simpl; [discriminate|].
  destruct (Ascii.eqb c "/"); [discriminate|].
  destruct (filepath.elements s); discriminate.
Qed.

Lemma elements_app a b :
  filepath.elements (a ++ "/" ++ b)
  = (filepath.elements a ++ filepath.elements b)%list.
Proof.
  induction a as [|c a IH]; [reflexivity|].
  cbn [append filepath.elements]. 
  change (a ++ String "/" b) with (a ++ "/" ++ b). rewrite IH.
  destruct (Ascii.eqb c "/"); [reflexivity|].
  pose proof (elements_nonempty a) as Hn.
  destruct (filepath.elements a); [congruence|reflexivity].
Qed.

Lemma elements_one x : count_byte "/" x = 0%nat -> filepath.elements x = [x].
Proof.
  induction x as [|c x IH]; [reflexivity|].
  cbn [count_byte filepath.elements].
  destruct (Ascii.eqb c "/"); [discriminate|].
  intros H. rewrite (IH H). reflexivity.
Qed.

Lemma elements_noslash s :
  Forall (fun e => count_byte "/" e = 0%nat) (filepath.elements s).
Proof.
  induction s as [|c s IH]; simpl; [repeat constructor|].
  destruct (Ascii.eqb c "/") eqn:E; [constructor; [reflexivity|exact IH]|].
  destruct (filepath.elements s) as [|e es]; [repeat constructor; simpl; now rewrite E|].
  inversion IH; subst. constructor; [simpl; now rewrite E|assumption].
Qed.

Lemma elements_Join l :
  l <> [] ->
  Forall (fun e => count_byte "/" e = 0%nat) l ->
  filepath.elements (strings.Join l "/") = l.
Proof.
  induction l as [|x l IH]; [congruence|].
  intros _ H. inversion H as [|? ? Hx Hl]; subst.
  destruct l as [|y l]; [now apply elements_one|].
  change (strings.Join (x :: y :: l) "/")
    with (x ++ "/" ++ strings.Join (y :: l) "/").
  rewrite elements_app, (elements_one _ Hx), IH; [reflexivity|discriminate|exact Hl].
Qed.

Lemma Join_snoc l name :
  l <> [] ->
  strings.Join (l ++ [name]) "/" = strings.Join l "/" ++ "/" ++ name.
Proof.
  induction l as [|x l IH]; [congruence|]. intros _.
  destruct l as [|y l]; [reflexivity|].
  change (strings.Join ((x :: y :: l) ++ [name]) "/")
    with (x ++ "/" ++ strings.Join ((y :: l) ++ [name]) "/").
  rewrite IH by discriminate.
  change (strings.Join (x :: y :: l) "/")
    with (x ++ "/" ++ strings.Join (y :: l) "/").
  now rewrite !append_assoc.
Qed.

Lemma plain_eqb e :
  plain e ->
  String.eqb e "" = false /\ String.eqb e "." = false /\
  String.eqb e ".." = false.
Proof.
  intros (H1 & H2 & H3 & _). repeat split; now apply String.eqb_neq.
Qed.

Lemma scan_plain r reals : forall st,
  Forall plain reals -> scan r reals st = (rev reals ++ st)%list.
Proof.
  induction reals as [|e es IH]; intros st H; [reflexivity|].
  inversion H as [|? ? He Hes]; subst.
  destruct (plain_eqb _ He) as (E1 & E2 & E3).
  cbn [scan]. rewrite E1, E2, E3. cbn [orb].
  rewrite (IH _ Hes). cbn [rev]. now rewrite <- app_assoc.
Qed.

Lemma repeat_snoc {A} (x : A) k : (repeat x k ++ [x])%list = x :: repeat x k.
Proof. induction k as [|k IH]; simpl; [reflexivity|now rewrite IH]. Qed.

Lemma rev_repeat {A} (x : A) k : rev (repeat x k) = repeat x k.
Proof.
  induction k as [|k IH]; simpl; [reflexivity|].
  now rewrite IH, repeat_snoc.
Qed.

Lemma scan_dotdots k : forall j,
  scan false (repeat ".." k) (repeat ".." j) = repeat ".." (k + j).
Proof.
  induction k as [|k IH]; intros j; [reflexivity|].
  cbn [repeat scan String.eqb Ascii.eqb Bool.eqb orb andb].
  destruct j as [|j].
  - change [".."] with (repeat ".." 1). rewrite (IH 1%nat).
    replace (k + 1)%nat with (S (k + 0)) by lia. reflexivity.
  - cbn [repeat String.eqb Ascii.eqb Bool.eqb andb].
    change (".." :: ".." :: repeat ".." j) with (repeat ".." (S (S j))).
    rewrite IH.
    replace (k + S (S j))%nat with (S (k + S j)) by lia. reflexivity.
Qed.

(** Scanning a stack that is already clean gives it back. *)
Lemma scan_canon_id r st : canon r st -> scan r (rev st) [] = st.
Proof.
  intros (k & reals & -> & Hp & Hk).
  rewrite rev_app_distr, rev_involutive, rev_repeat, scan_app.
  assert (Hd : scan r (repeat ".." k) [] = repeat ".." k).
  { destruct r.
    - rewrite (Hk eq_refl). reflexivity.
    - pose proof (scan_dotdots k 0) as H. simpl in H.
      now rewrite Nat.add_0_r in H. }
  rewrite Hd. apply scan_plain. exact Hp.
Qed.

Lemma canon_noslash r st :
  canon r st -> Forall (fun e => count_byte "/" e = 0%nat) st.
Proof.
  intros (k & reals & -> & Hp & _). apply Forall_app. split.
  - apply Forall_rev. eapply Forall_impl; [|exact Hp].
    intros e (_ & _ & _ & H). exact H.
  - apply Forall_forall. intros e He. apply repeat_spec in He. now subst.
Qed.

Lemma canon_nonempty r st : canon r st -> Forall (fun e => e <> "") st.
Proof.
  intros (k & reals & -> & Hp & _). apply Forall_app. split.
  - apply Forall_rev. eapply Forall_impl; [|exact Hp].
    intros e (H & _). exact H.
  - apply Forall_forall. intros e He. apply repeat_spec in He. now subst.
Qed.

(** The scan keeps a clean stack clean. *)
Lemma scan_canon r l : forall st,
  Forall (fun e => count_byte "/" e = 0%nat) l ->
  canon r st -> canon r (scan r l st).
Proof.
  induction l as [|e es IH]; intros st Hl Hc; [exact Hc|].
  inversion Hl as [|? ? He Hes]; subst.
  cbn [scan].
  destruct (String.eqb_spec e "") as [->|N1]; [now apply IH|].
  destruct (String.eqb_spec e ".") as [->|N2]; [now apply IH|].
  cbn [orb].
  destruct (String.eqb_spec e "..") as [->|N3].
  - destruct Hc as (k & reals & -> & Hp & Hk).
    destruct (rev reals) as [|top below] eqn:Er.
    + assert (reals = []) as ->
        by (rewrite <- (rev_involutive reals), Er; reflexivity).
      cbn [app]. destruct k as [|k].
      * cbn [repeat]. apply IH; [exact Hes|].
        destruct r.
        -- exists 0%nat, []. repeat split; auto.
        -- exists 1%nat, []. repeat split; auto. discriminate.
      * cbn [repeat String.eqb Ascii.eqb Bool.eqb andb].
        apply IH; [exact Hes|].
        destruct r.
        -- specialize (Hk eq_refl). discriminate.
        -- exists (S (S k)), []. repeat split; auto. discriminate.
    + cbn [app].
      assert (Ht : plain top /\ Forall plain (rev below)).
      { assert (Hr : reals = (rev below ++ [top])%list)
          by (rewrite <- (rev_involutive reals), Er; reflexivity).
        subst reals. apply Forall_app in Hp. destruct Hp as [Hb Ht].
        inversion Ht; subst. auto. }
      destruct Ht as [Ht Hb].
      destruct (plain_eqb _ Ht) as (_ & _ & E3). rewrite E3.
      apply IH; [exact Hes|].
      exists k, (rev below). rewrite rev_involutive. auto.
  - apply IH; [exact Hes|].
    destruct Hc as (k & reals & -> & Hp & Hk).
    exists k, (reals ++ [e])%list. repeat split; auto.
    + rewrite rev_app_distr. reflexivity.
    + apply Forall_app. split; [exact Hp|].
      repeat constructor; auto.
Qed.

Lemma rooted_app a t : a <> "" -> filepath.rooted (a ++ t) = filepath.rooted a.
Proof.
  intros Ha. unfold filepath.rooted, strings.HasPrefix.
  destruct a as [|c a]; [congruence|].
  change (String c a ++ t) with (String c (a ++ t)).
  now rewrite !prefix_byte.
Qed.

Lemma Clean_scan path :
  path <> "" ->
  filepath.Clean path =
  let out := rev (scan (filepath.rooted path) (filepath.elements path) []) in
  if filepath.rooted path then "/" ++ strings.Join out "/"
  else match out with
       | [] => "."
       | _ => strings.Join out "/"
       end.
Proof.
  intros Hp. unfold filepath.Clean.
  destruct (String.eqb_spec path "") as [->|_]; [congruence|].
  now rewrite clean_elems_scan.
Qed.

Lemma Join_head_unrooted e l t :
  e <> "" -> count_byte "/" e = 0%nat ->
  filepath.rooted (strings.Join (e :: l) "/" ++ t) = false.
Proof.
  intros He Hs. unfold filepath.rooted, strings.HasPrefix.
  destruct e as [|c e]; [congruence|].
  assert (Hc : Ascii.eqb c "/" = false).
  { cbn [count_byte] in Hs. destruct (Ascii.eqb c "/"); [discriminate|reflexivity]. }
  destruct l as [|y l]; cbn [strings.Join append]; now rewrite prefix_byte.
Qed.

(** Joining a plain name to a cleaned path with a plain last element puts
    a separator and the name behind it. *)
Lemma Join_Join_plain a x name :
  a <> "" -> plain x -> plain name ->
  filepath.Join [filepath.Join [a; x]; name]
  = filepath.Join [a; x] ++ "/" ++ name.
Proof.
  intros Ha Hx Hn.
  set (r := filepath.rooted a).
  set (st := scan r (filepath.elements a) []).
  assert (Hc : canon r st).
  { apply scan_canon; [apply elements_noslash|].
    exists 0%nat, []. repeat split; auto. }
  set (L := (rev st ++ [x])%list).
  assert (HL : L <> []) by (unfold L; destruct (rev st); discriminate).
  assert (Hns : Forall (fun e => count_byte "/" e = 0%nat) L).
  { apply Forall_app. split.
    - apply Forall_rev. apply (canon_noslash _ _ Hc).
    - repeat constructor. apply Hx. }
  assert (Hne : Forall (fun e => e <> "") L).
  { apply Forall_app. split.
    - apply Forall_rev. apply (canon_nonempty _ _ Hc).
    - repeat constructor. apply Hx. }
  destruct (plain_eqb _ Hx) as (X1 & X2 & X3).
  destruct (plain_eqb _ Hn) as (N1 & N2 & N3).
  (* the directory *)
  assert (HD : filepath.Join [a; x]
               = if r then "/" ++ strings.Join L "/" else strings.Join L "/").
  { cbn [filepath.Join].
    destruct (String.eqb_spec a "") as [->|_]; [congruence|].
    change (strings.Join [a; x] filepath.Separator) with (a ++ "/" ++ x).
    rewrite Clean_scan by (destruct a; [congruence|discriminate]).
    cbv zeta. rewrite (rooted_app _ _ Ha). fold r.
    rewrite elements_app, (elements_one x) by apply Hx.
    rewrite scan_app. fold st.
    cbn [scan]. rewrite X1, X2, X3. cbn [orb rev]. fold L.
    destruct r; [reflexivity|].
    destruct L; [congruence|reflexivity]. }
  rewrite HD.
  set (D := if r then "/" ++ strings.Join L "/" else strings.Join L "/").
  assert (HDne : D <> "").
  { unfold D. destruct r; [discriminate|].
    destruct L as [|e l]; [congruence|].
    inversion Hne as [|? ? He _]; subst.
    destruct e; [congruence|]. destruct l; discriminate. }
  cbn [filepath.Join].
  destruct (String.eqb_spec D "") as [E|_]; [congruence|].
  change (strings.Join [D; name] filepath.Separator) with (D ++ "/" ++ name).
  rewrite Clean_scan by (destruct D; [congruence|discriminate]).
  cbv zeta.
  assert (Hr : filepath.rooted (D ++ "/" ++ name) = r).
  { unfold D. destruct r eqn:Er.
    - unfold filepath.rooted, strings.HasPrefix.
      change (("/" ++ strings.Join L "/") ++ "/" ++ name)
        with (String "/" (strings.Join L "/" ++ "/" ++ name)).
      now rewrite prefix_byte.
    - destruct L as [|e l]; [congruence|].
      inversion Hne; inversion Hns; subst.
      now apply Join_head_unrooted. }
  rewrite Hr.
  assert (Hs : rev (scan r (filepath.elements (D ++ "/" ++ name)) [])
               = (L ++ [name])%list).
  { rewrite elements_app, (elements_one name) by apply Hn.
    assert (He : scan r (filepath.elements D) [] = x :: st).
    { unfold D. destruct r eqn:Er.
      - change (filepath.elements ("/" ++ strings.Join L "/"))
          with ("" :: filepath.elements (strings.Join L "/")).
        rewrite (elements_Join _ HL Hns). cbn [scan String.eqb orb].
        unfold L. rewrite scan_app, (scan_canon_id _ _ Hc).
        cbn [scan]. now rewrite X1, X2, X3.
      - rewrite (elements_Join _ HL Hns).
        unfold L. rewrite scan_app, (scan_canon_id _ _ Hc).
        cbn [scan]. now rewrite X1, X2, X3. }
    rewrite scan_app, He. cbn [scan]. rewrite N1, N2, N3. cbn [orb rev].
    unfold L. now rewrite <- app_assoc. }
  rewrite Hs, (Join_snoc _ _ HL).
  unfold D. destruct r.
  - now rewrite !append_assoc.
  - destruct (L ++ [name])%list eqn:E; [|reflexivity].
    destruct L; discriminate.
Qed.

Lemma string_of_uint_noslash u :
  count_byte "/" (NilEmpty.string_of_uint u) = 0%nat.
Proof. induction u; simpl; auto. Qed.

Lemma count_byte_drop c n : forall s,
  count_byte c s = 0%nat -> count_byte c (drop n s) = 0%nat.
Proof.
  induction n as [|n IH]; intros [|d s] H; simpl; auto.
  apply IH. simpl in H. lia.
Qed.

Lemma nextSuffix_noslash w : count_byte "/" (nextSuffix w) = 0%nat.
Proof.
  unfold nextSuffix. apply count_byte_drop, string_of_uint_noslash.
Qed.

Lemma TempDir_loop_shape dir pre i :
  forall last w w' d,
    TempDir_loop i dir pre last w = (w', inl d) ->
    exists sfx,
      count_byte "/" sfx = 0%nat /\ d = filepath.Join [dir; pre ++ sfx].
Proof.
  induction i as [|i IH]; intros last w w' d; cbn [TempDir_loop];
    [discriminate|].
  destruct (Mkdir _ (set_rand_pos w (S (rand_pos w)))) as [w1 [e|]].
  - destruct e; try discriminate. apply IH.
  - intros H. injection H as _ <-.
    exists (nextSuffix w). split; [apply nextSuffix_noslash|reflexivity].
Qed.

(** The directory of an instance that [NewContainerd] returned is a cleaned
    path: joining a plain name to it is writing the name behind it. *)
Lemma NewContainerd_dir_join sink wd wd' c name :
  NewContainerd sink wd = (wd', inl c) ->
  plain name ->
  filepath.Join [dir c; name] = dir c ++ "/" ++ name.
Proof.
  unfold NewContainerd.
  destruct (TempDir "" "moby-ctd" wd) as [wd1 [d|e]] eqn:Ht; [|discriminate].
  destruct (WriteFile _ _ 384 wd1) as [wd2 [e|]]; [discriminate|].
  destruct (LookPath "containerd" wd2) as [containerd|e]; [|discriminate].
  destruct (Start _ wd2) as [wd3 [cmd'|e]]; [|discriminate].
  intros H Hn. injection H as _ <-. cbn [dir].
  unfold TempDir in Ht. cbn [String.eqb] in Ht.
  apply TempDir_loop_shape in Ht. destruct Ht as (sfx & Hs & ->).
  apply Join_Join_plain; [|       |exact Hn].
  - unfold os_TempDir. destruct (String.eqb_spec (TMPDIR wd) ""); 
      [discriminate|assumption].
  - repeat split; try discriminate.
    rewrite count_byte_app, Hs. reflexivity.
Qed.

Lemma plain_config_toml : plain "config.toml".
Proof. repeat split; discriminate. Qed.

Lemma plain_containerd_sock : plain "containerd.sock".
Proof. repeat split; discriminate. Qed.

Lemma plain_root : plain "root".
Proof. repeat split; discriminate. Qed.

(** ** The archive of [Bundle] *)

Lemma Bundle_split accepts tarPrefix c path image config trust wd :
  Bundle accepts tarPrefix c path image config trust wd =
  match Bundle_tar accepts tarPrefix path image config with
  | inr e => (Bundle_logged path image config wd, ([], Some e))
  | inl items =>
      match Fetch c image trust (Bundle_logged path image config wd) with
      | (wd', Some e) => (wd', ([], Some e))
      | (wd', None) => (wd', (items, None))
      end
  end.
Proof.
  unfold Bundle, Bundle_tar, Bundle_logged.
  repeat match goal with
         | |- context [match ?x with (_, _) => _ end] =>
             match x with
             | Fetch _ _ _ _ => fail 1
             | _ => destruct x as [? [?|]]; try reflexivity
             end
         end.
Qed.

Lemma WriteHeader_idle accepts hdr tw tw' :
  idle tw ->
  tar.WriteHeader accepts hdr tw = (tw', None) ->
  exists h,
    tar.out tw' = (tar.out tw ++ [tar.IHeader h])%list /\
    tar.err tw' = None /\
    tar.Name h = tar.Name hdr /\
    tar.nb tw' = tar.Size h /\
    ((tar.Typeflag hdr = tar.TypeDir /\ tar.Typeflag h = tar.TypeDir
      /\ tar.Size h = 0) \/
     (tar.Typeflag hdr = tar.TypeRegA /\
      tar.has_suffix_slash (tar.Name hdr) = false /\
      tar.Typeflag h = tar.TypeReg /\ tar.Size h = tar.Size hdr) \/
     (tar.Typeflag hdr <> tar.TypeDir /\
      (tar.Typeflag hdr = tar.TypeRegA ->
       tar.has_suffix_slash (tar.Name hdr) = true))).
Proof.
  intros [He Hn]. unfold tar.WriteHeader, tar.Flush. rewrite He, Hn. simpl.
  match goal with |- context [accepts ?h] => destruct (accepts h) eqn:Ha end;
    [|discriminate].
  intros H. inversion H; subst; clear H. simpl.
  eexists. split; [reflexivity|]. split; [reflexivity|]. simpl.
  split; [reflexivity|]. split; [reflexivity|].
  destruct (tar.Typeflag hdr) eqn:Ef; simpl;
    try (right; right; split; [discriminate|discriminate]).
  - destruct (tar.has_suffix_slash (tar.Name hdr)) eqn:Es.
    + right; right. split; [discriminate|reflexivity].
    + right; left. simpl. auto.
  - left. auto.
Qed.

Lemma Copy_exact data tw tw' r :
  tar.err tw = None ->
  tar.nb tw = len data ->
  tar.Copy data tw = (tw', r) ->
  r = None /\ idle tw' /\
  tar.out tw' = (tar.out tw
                 ++ (if String.eqb data "" then [] else [tar.IData data]))%list.
Proof.
  intros He Hn. unfold tar.Copy.
  destruct (String.eqb_spec data "") as [->|Hd].
  - intros H. inversion H; subst. rewrite app_nil_r.
    repeat split; auto.
  - unfold tar.Write. rewrite He, Hn, Z.ltb_irrefl.
    assert (0 < len data).
    { unfold len. destruct data; [congruence|simpl; lia]. }
    replace (0 <? len data) with true by (symmetry; apply Z.ltb_lt; lia).
    intros H'. inversion H'; subst. unfold idle. cbn [tar.nb tar.err tar.out].
    repeat split; auto. lia.
Qed.

Lemma tarPrefix_loop_dirs accepts dirs :
  forall mkdir tw tw',
    idle tw ->
    tarPrefix_loop accepts mkdir dirs tw = (tw', None) ->
    idle tw' /\
    exists hs,
      tar.out tw' = (tar.out tw ++ map tar.IHeader hs)%list /\
      Forall (fun h => tar.Typeflag h = tar.TypeDir) hs.
Proof.
  induction dirs as [|d rest IH]; intros mkdir tw tw' Hi; simpl.
  - intros H. inversion H; subst. split; [exact Hi|].
    exists []. simpl. now rewrite app_nil_r.
  - destruct (String.eqb (mkdir ++ d) "").
    + apply IH. exact Hi.
    + destruct (tar.WriteHeader accepts _ tw) as [tw1 [e|]] eqn:Ew;
        [discriminate|].
      intros Hl.
      destruct (WriteHeader_idle _ _ _ _ Hi Ew)
        as (h & Ho & He & _ & Hnb & Hk).
      assert (Hd : tar.Typeflag h = tar.TypeDir /\ tar.Size h = 0).
      { destruct Hk as [(_ & Hf & Hs)|[(Hf & _)|(Hf & _)]];
          simpl in Hf; try discriminate; [auto|congruence]. }
      destruct Hd as [Hf Hs].
      assert (Hi1 : idle tw1) by (split; [exact He|congruence]).
      destruct (IH _ _ _ Hi1 Hl) as (Hi' & hs & Ho' & Hall).
      split; [exact Hi'|].
      exists (h :: hs). split.
      * rewrite Ho', Ho, <- app_assoc. reflexivity.
      * constructor; assumption.
Qed.

Lemma tarPrefix_spec_writes_directories accepts :
  writes_directories (tarPrefix_spec accepts).
Proof.
  intros path tw tw' Hi H. apply (tarPrefix_loop_dirs _ _ _ _ _ Hi H).
Qed.

Lemma has_suffix_slash_app (s t : string) :
  t <> "" -> tar.has_suffix_slash (s ++ t) = tar.has_suffix_slash t.
Proof.
  intros Ht. induction s as [|c s IH]; [reflexivity|].
  cbn [append tar.has_suffix_slash]. rewrite IH.
  destruct (s ++ t) eqn:E; [|reflexivity].
  destruct s; simpl in E; [congruence|discriminate].
Qed.

Lemma regular_files_dirs hs rest :
  Forall (fun h => tar.Typeflag h = tar.TypeDir) hs ->
  regular_files (map tar.IHeader hs ++ rest)%list = regular_files rest.
Proof.
  unfold regular_files.
  induction 1 as [|h hs Hh _ IH]; [reflexivity|].
  simpl. rewrite Hh. simpl. exact IH.
Qed.

(** What a built archive looks like. *)
Lemma Bundle_tar_shape accepts tarPrefix path image config items :
  writes_directories tarPrefix ->
  Bundle_tar accepts tarPrefix path image config = inl items ->
  exists hs h1 h2,
    Forall (fun h => tar.Typeflag h = tar.TypeDir) hs /\
    tar.Name h1 = path ++ "/config.json" /\ tar.Typeflag h1 = tar.TypeReg /\
    tar.Name h2 = path ++ "/image" /\ tar.Typeflag h2 = tar.TypeReg /\
    items = (map tar.IHeader hs
             ++ tar.IHeader h1
             :: (if String.eqb config "" then [] else [tar.IData config])
             ++ tar.IHeader h2
             :: (if String.eqb image "" then [] else [tar.IData image])
             ++ [tar.ITrailer])%list.
Proof.
  intros Hdirs. unfold Bundle_tar.
  destruct (tarPrefix (path ++ "/") tar.NewWriter) as [tw0 [e|]] eqn:E0;
    [discriminate|].
  apply Hdirs in E0; [|split; reflexivity].
  destruct E0 as (Hi0 & hs & Ho0 & Hall). simpl in Ho0.
  destruct (tar.WriteHeader accepts _ tw0) as [tw1 [e|]] eqn:E1; [discriminate|].
  destruct (WriteHeader_idle _ _ _ _ Hi0 E1) as (h1 & Ho1 & He1 & Hn1 & Hb1 & Hk1).
  simpl in Hn1.
  assert (Hs1 : tar.has_suffix_slash (path ++ "/" ++ "config.json") = false)
    by (rewrite has_suffix_slash_app; [reflexivity|discriminate]).
  assert (H1 : tar.Typeflag h1 = tar.TypeReg /\ tar.Size h1 = len config).
  { destruct Hk1 as [(Hf & _)|[(_ & _ & Hf & Hs)|(_ & Hf)]]; simpl in *;
      [discriminate|auto|].
    specialize (Hf eq_refl). congruence. }
  destruct H1 as [Hf1 Hz1].
  destruct (tar.Copy config tw1) as [tw2 r2] eqn:E2.
  destruct (Copy_exact _ _ _ _ He1 (eq_trans Hb1 Hz1) E2)
    as (-> & Hi2 & Ho2).
  destruct (tar.WriteHeader accepts _ tw2) as [tw3 [e|]] eqn:E3; [discriminate|].
  destruct (WriteHeader_idle _ _ _ _ Hi2 E3) as (h2 & Ho3 & He3 & Hn3 & Hb3 & Hk3).
  simpl in Hn3.
  assert (Hs3 : tar.has_suffix_slash (path ++ "/" ++ "image") = false)
    by (rewrite has_suffix_slash_app; [reflexivity|discriminate]).
  assert (H3 : tar.Typeflag h2 = tar.TypeReg /\ tar.Size h2 = len image).
  { destruct Hk3 as [(Hf & _)|[(_ & _ & Hf & Hs)|(_ & Hf)]]; simpl in *;
      [discriminate|auto|].
    specialize (Hf eq_refl). congruence. }
  destruct H3 as [Hf3 Hz3].
  destruct (tar.Copy image tw3) as [tw4 r4] eqn:E4.
  destruct (Copy_exact _ _ _ _ He3 (eq_trans Hb3 Hz3) E4)
    as (-> & Hi4 & Ho4).
  unfold tar.Close, tar.Flush. destruct Hi4 as [He4 Hn4].
  rewrite He4, Hn4. simpl. intros H. inversion H; subst items; clear H.
  exists hs, h1, h2. repeat split; auto.
  rewrite Ho4, Ho3, Ho2, Ho1, Ho0. rewrite <- !app_assoc. reflexivity.
Qed.

(** C4: a [Bundle] that succeeds returns an archive whose regular files are
    exactly two, in this order: [path/config.json] holding [config] as it
    was given, and [path/image] holding the [image] argument as it was
    given, not its normalised form.  ([tarPrefix], the helper from another
    file, is taken to write directory headers only.) *)
Theorem Bundle_two_files accepts tarPrefix c path image config trust wd wd'
                         bytes :
  writes_directories tarPrefix ->
  Bundle accepts tarPrefix c path image config trust wd
  = (wd', (bytes, None)) ->
  regular_files bytes
  = [(path ++ "/config.json", config); (path ++ "/image", image)].
Proof.
  intros Hdirs. rewrite Bundle_split.
  destruct (Bundle_tar accepts tarPrefix path image config) as [items|e] eqn:Et;
    [|discriminate].
  destruct (Fetch c image trust _) as [wd1 [e|]]; [discriminate|].
  intros H. inversion H; subst; clear H.
  destruct (Bundle_tar_shape _ _ _ _ _ _ Hdirs Et)
    as (hs & h1 & h2 & Hall & Hn1 & Hf1 & Hn2 & Hf2 & ->).
  rewrite (regular_files_dirs _ _ Hall).
  unfold regular_files.
  destruct (String.eqb_spec config "") as [->|Hc];
    destruct (String.eqb_spec image "") as [->|Hi];
    simpl; rewrite Hf1, Hf2; simpl; rewrite Hn1, Hn2, ?append_nil_r;
    reflexivity.
Qed.

Lemma Bundle_two_files_witness :
  regular_files
    (fst (snd (Bundle any_header sample_tarPrefix sample_ctd
                      "containers/onboot/000-sshd" "linuxkit/sshd" "{}"
                      false world_ok)))
  = [("containers/onboot/000-sshd" ++ "/config.json", "{}");
     ("containers/onboot/000-sshd" ++ "/image", "linuxkit/sshd")].
Proof.
  eapply (Bundle_two_files any_header sample_tarPrefix sample_ctd
            "containers/onboot/000-sshd" "linuxkit/sshd" "{}" false world_ok).
  - apply (tarPrefix_spec_writes_directories any_header).
  - vm_compute. reflexivity.
Defined.

(** C8: whenever [Bundle] returns an error, whatever step it comes from,
    the bytes next to it are the empty slice; and when the archive was
    built and [Fetch] then fails, [Bundle] returns the error of [Fetch],
    with the empty slice in place of the archive. *)
Theorem Bundle_error_discards_archive accepts tarPrefix c path image config
                                      trust wd :
  (forall wd' bytes e,
      Bundle accepts tarPrefix c path image config trust wd
      = (wd', (bytes, Some e)) ->
      bytes = []) /\
  (forall items wd' e,
      Bundle_tar accepts tarPrefix path image config = inl items ->
      Fetch c image trust (Bundle_logged path image config wd)
      = (wd', Some e) ->
      Bundle accepts tarPrefix c path image config trust wd
      = (wd', ([], Some e))).
Proof.
  rewrite Bundle_split. split.
  - intros wd' bytes e.
    destruct (Bundle_tar accepts tarPrefix path image config) as [items|e0].
    + destruct (Fetch c image trust _) as [wd1 [e1|]]; intros H;
        inversion H; reflexivity.
    + intros H. inversion H. reflexivity.
  - intros items wd' e -> ->. reflexivity.
Qed.

Lemma Bundle_error_discards_archive_witness :
  fst (snd (Bundle any_header sample_tarPrefix sample_ctd "p" "alpine" "{}"
                   false world_bare))
  = [] /\
  Bundle any_header sample_tarPrefix sample_ctd "p" "alpine" "{}" false
         world_bare
  = (add_event (Bundle_logged "p" "alpine" "{}" world_bare)
                (Debugf "fetch: alpine"),
     ([], Some (ErrorNew "Cannot find dist in path"))).
Proof.
  pose proof (Bundle_error_discards_archive any_header sample_tarPrefix
                sample_ctd "p" "alpine" "{}" false world_bare) as [H1 H2].
  split.
  - eapply H1. vm_compute. reflexivity.
  - erewrite H2; [| vm_compute; reflexivity | vm_compute; reflexivity].
    vm_compute. reflexivity.
Defined.

(** C9: the [trust] argument reaches nothing.  Two runs that differ only in
    it leave the same world behind (the same log lines, the same subprocess
    with the same arguments and wiring) and return the same error from
    [Fetch], the same bytes and error from [Bundle]. *)
Theorem trust_flag_unused accepts tarPrefix c path image config wd :
  Fetch c image true wd = Fetch c image false wd /\
  Bundle accepts tarPrefix c path image config true wd
  = Bundle accepts tarPrefix c path image config false wd.
Proof. split; reflexivity. Qed.

(** ** The subprocess of [Fetch] *)

Lemma findExecutable_events file wd e :
  findExecutable file (add_event wd e) = findExecutable file wd.
Proof. reflexivity. Qed.

Lemma LookPath_dirs_events dirs file wd e :
  LookPath_dirs dirs file (add_event wd e) = LookPath_dirs dirs file wd.
Proof.
  induction dirs as [|d rest IH]; cbn [LookPath_dirs]; [reflexivity|].
  rewrite findExecutable_events, IH. reflexivity.
Qed.

Lemma LookPath_events file wd e :
  LookPath file (add_event wd e) = LookPath file wd.
Proof.
  unfold LookPath. rewrite findExecutable_events.
  change (PATH (add_event wd e)) with (PATH wd).
  now rewrite LookPath_dirs_events.
Qed.

Lemma LookPath_dirs_executable dirs file wd path :
  LookPath_dirs dirs file wd = inl path -> findExecutable path wd = true.
Proof.
  induction dirs as [|d rest IH]; cbn [LookPath_dirs]; [discriminate|].
  destruct (findExecutable (filepath.Join _) wd) eqn:E; [|exact IH].
  intros H. inversion H; subst. exact E.
Qed.

Lemma LookPath_executable file wd path :
  LookPath file wd = inl path -> findExecutable path wd = true.
Proof.
  unfold LookPath. destruct (has_byte "/" file).
  - destruct (findExecutable file wd) eqn:E; [|discriminate].
    intros H. inversion H; subst. exact E.
  - apply LookPath_dirs_executable.
Qed.

(** C7: when the fetch tool is found on the search path, [Fetch] starts it
    once, with the arguments [--address <dir>/containerd.sock --root
    <dir>/root fetch <name>] and with standard output and standard error
    both on the instance's sink.  [<name>] is [ImageName] of the reference;
    the two paths are [filepath.Join] of the instance's directory and the
    file name, which for an instance that [NewContainerd] returned is the
    directory, a separator and the file name. *)
Theorem Fetch_invocation c repo trust wd dist :
  LookPath "dist" wd = inl dist ->
  exists wd' r address root,
    Fetch c repo trust wd = (wd', r) /\
    events wd' =
    (events wd ++
     [Debugf ("fetch: " ++ repo);
      Exec (mkCmd dist
                  [dist; "--address"; address; "--root"; root;
                   "fetch"; ImageName repo]
                  (Some (w c)) (Some (w c)) None)])%list /\
    address = filepath.Join [dir c; "containerd.sock"] /\
    root = filepath.Join [dir c; "root"] /\
    (created c ->
     address = dir c ++ "/containerd.sock" /\ root = dir c ++ "/root").
Proof.
  intros Hd. unfold Fetch.
  rewrite LookPath_events, Hd.
  unfold Run. cbn [Process set_Stdout set_Stderr Command Path].
  rewrite findExecutable_events, (LookPath_executable _ _ _ Hd).
  cbn [tool add_event fs].
  assert (Hc : created c ->
               filepath.Join [dir c; "containerd.sock"]
               = dir c ++ "/containerd.sock" /\
               filepath.Join [dir c; "root"] = dir c ++ "/root").
  { intros (sink & wd0 & wd1 & Hn). split.
    - apply (NewContainerd_dir_join _ _ _ _ _ Hn plain_containerd_sock).
    - apply (NewContainerd_dir_join _ _ _ _ _ Hn plain_root). }
  destruct (tool wd _ (fs wd)) as [t ok].
  destruct ok; do 4 eexists; (split; [reflexivity|]);
    (split; [|split; [reflexivity|split; [reflexivity|exact Hc]]]);
    cbn [events add_event set_fs]; rewrite <- app_assoc; simpl;
    rewrite append_nil_r; reflexivity.
Qed.

Lemma Fetch_invocation_witness :
  exists wd' r,
    Fetch ctd_started "alpine" false world_started = (wd', r) /\
    events wd' =
    (events world_started ++
     [Debugf ("fetch: " ++ "alpine");
      Exec (mkCmd "/usr/bin/dist"
                  ["/usr/bin/dist";
                   "--address"; "/tmp/moby-ctd000000041/containerd.sock";
                   "--root"; "/tmp/moby-ctd000000041/root";
                   "fetch"; "docker.io/library/alpine:latest"]
                  (Some 7%nat) (Some 7%nat) None)])%list.
Proof.
  destruct (Fetch_invocation ctd_started "alpine" false world_started
              "/usr/bin/dist")
    as (wd' & r & address & root & Hf & He & -> & -> & _).
  - vm_compute. reflexivity.
  - exists wd', r. split; [exact Hf|]. rewrite He. reflexivity.
Defined.

(** ** Removing the directory *)

Lemma assoc_del_entry name es : assoc name (del_entry name es) = None.
Proof.
  induction es as [|[k n] es IH]; simpl; [reflexivity|].
  destruct (String.eqb k name) eqn:E; simpl; [exact IH|].
  now rewrite E.
Qed.

Lemma assoc_map_prune name p es :
  assoc name
    (map (fun kn => if String.eqb (fst kn) name
                    then (fst kn, prune p (snd kn)) else kn) es)
  = option_map (prune p) (assoc name es).
Proof.
  induction es as [|[k n] es IH]; simpl; [reflexivity|].
  destruct (String.eqb k name) eqn:E; simpl; rewrite E; [reflexivity|exact IH].
Qed.

Lemma prune_cons name p es :
  p <> [] ->
  prune (name :: p) (Dir es)
  = Dir (map (fun kn => if String.eqb (fst kn) name
                        then (fst kn, prune p (snd kn)) else kn) es).
Proof. destruct p; [congruence|reflexivity]. Qed.

(** Nothing is left at or below a pruned path. *)
Lemma lookup_prune p :
  forall q t, p <> [] -> lookup (p ++ q) (prune p t) = None.
Proof.
  induction p as [|name p IH]; intros q t Hp; [congruence|].
  destruct (list_eq_dec string_dec p []) as [->|Hne].
  - destruct t; simpl; try reflexivity.
    now rewrite assoc_del_entry.
  - destruct t as [m d|es| |]; try (destruct p; reflexivity).
    rewrite (prune_cons name p es Hne).
    cbn [app lookup]. rewrite assoc_map_prune.
    destruct (assoc name es) as [child|]; simpl; [|reflexivity].
    apply (IH q child Hne).
Qed.

Lemma resolve_set_fs wd t path : resolve (set_fs wd t) path = resolve wd path.
Proof. reflexivity. Qed.

Lemma RemoveAll_gone path wd wd' :
  RemoveAll path wd = (wd', None) ->
  exists_path path wd' = false /\
  forall p q, resolve wd' path = Some p -> lookup (p ++ q) (fs wd') = None.
Proof.
  unfold RemoveAll.
  destruct (resolve wd path) as [[|name p]|] eqn:Er; [discriminate| |];
    intros H.
  - assert (Hw : wd' = set_fs wd (prune (name :: p) (fs wd))) by congruence.
    clear H. subst wd'. unfold exists_path, Lstat.
    rewrite resolve_set_fs, Er.
    change (fs (set_fs wd (prune (name :: p) (fs wd))))
      with (prune (name :: p) (fs wd)).
    pose proof (lookup_prune (name :: p) [] (fs wd)) as Hl.
    rewrite app_nil_r in Hl. rewrite Hl by discriminate.
    split; [reflexivity|].
    intros p' q Hp. injection Hp as <-. apply lookup_prune. discriminate.
  - assert (Hw : wd' = wd) by congruence. subst wd'.
    unfold exists_path, Lstat. rewrite Er.
    split; [reflexivity|]. intros p q Hp. discriminate.
Qed.

(** C5: [Close] on an instance that was not shut down calls [Kill] first;
    if [Kill] fails, [Close] returns that error and the world is what it
    was, the directory included.  If the instance was already shut down,
    or [Kill] succeeds, [Close] is [os.RemoveAll] of the directory; and
    when [Close] returns no error, nothing exists at the directory or
    below it. *)
Theorem Close_removes_after_kill c wd :
  (shutdown c = false ->
   forall c' wd' e,
     Kill c wd = (c', wd', Some e) ->
     Close c wd = (c', wd', Some e) /\ wd' = wd /\ c' = c) /\
  (forall c1 wd1,
     (shutdown c = true /\ c1 = c /\ wd1 = wd) \/
     (shutdown c = false /\ Kill c wd = (c1, wd1, None)) ->
     dir c1 = dir c /\
     Close c wd = (let '(wd2, r) := RemoveAll (dir c) wd1 in (c1, wd2, r))) /\
  (forall c' wd',
     Close c wd = (c', wd', None) ->
     exists_path (dir c) wd' = false /\
     forall p q,
       resolve wd' (dir c) = Some p -> lookup (p ++ q) (fs wd') = None).
Proof.
  assert (Hk : forall c1 wd1 r, Kill c wd = (c1, wd1, r) -> dir c1 = dir c).
  { unfold Kill. intros c1 wd1 r.
    destruct (Process_Kill (cmd c) wd) as [w1 [e|]].
    - intros H. now inversion H.
    - destruct (Wait (cmd c) w1). intros H. now inversion H. }
  split; [|split].
  - intros Hs c' wd' e Hkill. unfold Close. rewrite Hs. cbn [negb].
    rewrite Hkill. split; [reflexivity|].
    revert Hkill. unfold Kill, Process_Kill.
    destruct (Process (cmd c)) as [pid|].
    + destruct (find_proc pid (procs wd)) as [pr|].
      * destruct (p_status pr); cbn [Wait];
          try (destruct (Wait _ _); discriminate);
          intros H; inversion H; auto.
      * intros H; inversion H; auto.
    + intros H; inversion H; auto.
  - intros c1 wd1 [(Hs & -> & ->)|(Hs & Hkill)]; unfold Close; rewrite Hs;
      cbn [negb].
    + split; [reflexivity|].
      destruct (RemoveAll (dir c) wd) as [wd2 [e|]]; reflexivity.
    + rewrite Hkill. rewrite (Hk _ _ _ Hkill). split; [reflexivity|].
      destruct (RemoveAll (dir c) wd1) as [wd2 [e|]]; reflexivity.
  - intros c' wd'. unfold Close.
    destruct (negb (shutdown c)).
    + destruct (Kill c wd) as [[c1 wd1] [e|]] eqn:Hkill; [discriminate|].
      rewrite (Hk _ _ _ eq_refl).
      destruct (RemoveAll (dir c) wd1) as [wd2 [e|]] eqn:Hr; [discriminate|].
      intros H. inversion H; subst. apply (RemoveAll_gone _ _ _ Hr).
    + destruct (RemoveAll (dir c) wd) as [wd2 [e|]] eqn:Hr; [discriminate|].
      intros H. inversion H; subst. apply (RemoveAll_gone _ _ _ Hr).
Qed.

Lemma Close_removes_after_kill_witness :
  (Close sample_ctd world_ok = (sample_ctd, world_ok, Some ErrFinished)) /\
  (exists_path (dir ctd_started) world_started = true /\
   exists_path (dir ctd_started) (snd (fst (Close ctd_started world_started)))
   = false).
Proof.
  pose proof (Close_removes_after_kill sample_ctd world_ok) as (H1 & _ & _).
  pose proof (Close_removes_after_kill ctd_started world_started)
    as (_ & _ & H3).
  split.
  - apply (H1 eq_refl sample_ctd world_ok ErrFinished). vm_compute. reflexivity.
  - split; [vm_compute; reflexivity|].
    eapply (H3 (fst (fst (Close ctd_started world_started)))).
    vm_compute. reflexivity.
Defined.

(** ** Creating the directory and the configuration *)

Lemma compare_refl (s : string) : String.compare s s = Eq.
Proof.
  pose proof (String.compare_antisym s s) as H.
  destruct (String.compare s s); simpl in H; congruence.
Qed.

Lemma assoc_set_entry_same name n es :
  assoc name (set_entry name n es) = Some n.
Proof.
  induction es as [|[k x] es IH]; simpl.
  - now rewrite String.eqb_refl.
  - destruct (String.compare name k) eqn:E; simpl.
    + now rewrite String.eqb_refl.
    + now rewrite String.eqb_refl.
    + destruct (String.eqb_spec k name) as [->|_]; [|exact IH].
      rewrite compare_refl in E. discriminate.
Qed.

Lemma assoc_set_entry_other name k n es :
  k <> name -> assoc k (set_entry name n es) = assoc k es.
Proof.
  intros Hk.
  assert (Hf : String.eqb name k = false) by (apply String.eqb_neq; congruence).
  induction es as [|[k0 x] es IH]; simpl.
  - now rewrite Hf.
  - destruct (String.compare name k0) eqn:E; simpl.
    + apply String.compare_eq_iff in E. subst k0. now rewrite Hf.
    + now rewrite Hf.
    + destruct (String.eqb k0 k); [reflexivity|exact IH].
Qed.

Lemma put_cons name p n es :
  p <> [] ->
  put (name :: p) n (Dir es) =
  match assoc name es with
  | Some child =>
      match put p n child with
      | Some child' => Some (Dir (set_entry name child' es))
      | None => None
      end
  | None => None
  end.
Proof. destruct p; [congruence|reflexivity]. Qed.

Lemma put_Dir p n t t' : put p n t = Some t' -> exists es, t = Dir es.
Proof.
  destruct p as [|name [|name2 p]]; destruct t; simpl; try discriminate;
    intros _; eexists; reflexivity.
Qed.

(** What was put is found. *)
Lemma lookup_put_same p :
  forall n t t', put p n t = Some t' -> lookup p t' = Some n.
Proof.
  induction p as [|name p IH]; intros n t t' H; [discriminate|].
  destruct (put_Dir _ _ _ _ H) as [es ->].
  destruct (list_eq_dec string_dec p []) as [->|Hne].
  - simpl in H. injection H as <-. simpl.
    now rewrite assoc_set_entry_same.
  - rewrite (put_cons _ _ _ _ Hne) in H.
    destruct (assoc name es) as [child|]; [|discriminate].
    destruct (put p n child) as [child'|] eqn:Ep; [|discriminate].
    injection H as <-. simpl. rewrite assoc_set_entry_same.
    apply (IH _ _ _ Ep).
Qed.

(** Putting a node where there was none, or a regular file, hides no
    path. *)
Lemma put_keeps p :
  forall n t t' q,
    put p n t = Some t' ->
    (lookup p t = None \/ exists m d, lookup p t = Some (File m d)) ->
    lookup q t <> None -> lookup q t' <> None.
Proof.
  induction p as [|name p IH]; intros n t t' q H Hold Hq; [discriminate|].
  destruct (put_Dir _ _ _ _ H) as [es ->].
  destruct q as [|k q]; [simpl; discriminate|].
  destruct (list_eq_dec string_dec p []) as [->|Hne].
  - simpl in H. injection H as <-. cbn [lookup] in *.
    destruct (String.eqb_spec k name) as [->|Hk].
    + rewrite assoc_set_entry_same.
      destruct (assoc name es) as [child|]; [|congruence].
      destruct Hold as [Hold|(m & d & Hold)]; [discriminate|].
      injection Hold as ->. destruct q; [discriminate|].
      simpl in Hq. congruence.
    + now rewrite (assoc_set_entry_other _ _ _ _ Hk).
  - rewrite (put_cons _ _ _ _ Hne) in H. cbn [lookup] in *.
    destruct (assoc name es) as [child|] eqn:Ea; [|discriminate].
    destruct (put p n child) as [child'|] eqn:Ep; [|discriminate].
    injection H as <-. cbn [lookup].
    destruct (String.eqb_spec k name) as [->|Hk].
    + rewrite assoc_set_entry_same. rewrite Ea in Hq.
      apply (IH _ _ _ _ Ep Hold Hq).
    + now rewrite (assoc_set_entry_other _ _ _ _ Hk).
Qed.

Lemma Mkdir_inv path w w' r :
  Mkdir path w = (w', r) ->
  match r with
  | None =>
      exists p t,
        resolve w path = Some p /\ lookup p (fs w) = None /\
        put p (Dir []) (fs w) = Some t /\ w' = set_fs w t
  | Some _ => w' = w
  end.
Proof.
  unfold Mkdir.
  destruct (resolve w path) as [p|]; [|intros H; now inversion H].
  destruct (lookup p (fs w)) eqn:El; [intros H; now inversion H|].
  destruct (put p (Dir []) (fs w)) as [t|] eqn:Ep; intros H; inversion H; subst.
  - exists p, t. auto.
  - reflexivity.
Qed.

Lemma TempDir_loop_inv dir pre i :
  forall last w w' d,
    TempDir_loop i dir pre last w = (w', inl d) ->
    exists n p t,
      resolve w d = Some p /\ lookup p (fs w) = None /\
      put p (Dir []) (fs w) = Some t /\
      w' = set_fs (set_rand_pos w n) t.
Proof.
  induction i as [|i IH]; intros last w w' d; cbn [TempDir_loop];
    [discriminate|].
  destruct (Mkdir _ (set_rand_pos w (S (rand_pos w)))) as [w1 r] eqn:Em.
  apply Mkdir_inv in Em.
  destruct r as [e|].
  - subst w1.
    destruct e; try discriminate.
    intros H. apply IH in H. exact H.
  - destruct Em as (p & t & Hr & Hl & Hp & ->).
    intros H. injection H as <- <-.
    exists (S (rand_pos w)), p, t. auto.
Qed.

Lemma TempDir_fresh dir pre w w' d :
  TempDir dir pre w = (w', inl d) ->
  exists_path d w = false /\ exists_path d w' = true /\ same_host w w'.
Proof.
  unfold TempDir. intros H.
  apply TempDir_loop_inv in H.
  destruct H as (n & p & t & Hr & Hl & Hp & ->).
  unfold exists_path, Lstat.
  rewrite resolve_set_fs.
  change (resolve (set_rand_pos w n) d) with (resolve w d).
  rewrite Hr, Hl. cbn [fs set_fs]. rewrite (lookup_put_same _ _ _ _ Hp).
  repeat split.
Qed.

Lemma WriteFile_inv filename data perm w w' r :
  WriteFile filename data perm w = (w', r) ->
  same_host w w' /\
  (forall path, exists_path path w = true -> exists_path path w' = true) /\
  (r = None -> read_file filename w' = Some data).
Proof.
  unfold WriteFile, read_file.
  destruct (resolve w filename) as [p|] eqn:Er;
    [|intros H; inversion H; subst; repeat split; auto; discriminate].
  assert (Hkeep : forall t t',
             (lookup p t = None \/ exists m d, lookup p t = Some (File m d)) ->
             forall n, put p n t = Some t' ->
             forall path, exists_path path (set_fs w t) = true ->
                          exists_path path (set_fs w t') = true).
  { intros t t' Hold n Hp path. unfold exists_path, Lstat.
    rewrite !resolve_set_fs. cbn [fs set_fs].
    destruct (resolve w path) as [q|]; [|auto].
    pose proof (put_keeps _ _ _ _ q Hp Hold) as Hk.
    destruct (lookup q t); [|discriminate].
    destruct (lookup q t'); [reflexivity|].
    exfalso. apply Hk; congruence. }
  assert (Hw : forall path, exists_path path (set_fs w (fs w)) = exists_path path w)
    by reflexivity.
  destruct (lookup p (fs w)) as [[m0 d0| | |]|] eqn:El;
    try (intros H; inversion H; subst; repeat split; auto; discriminate).
  - destruct (put p (File m0 "") (fs w)) as [t0|] eqn:E0;
      [|intros H; inversion H; subst; repeat split; auto; discriminate].
    pose proof (lookup_put_same _ _ _ _ E0) as L0.
    destruct (len data <=? free w).
    + destruct (put p (File m0 data) t0) as [t|] eqn:E1; intros H;
        inversion H; subst; (split; [repeat split|split]).
      * intros path Hx. rewrite <- Hw in Hx.
        apply (Hkeep _ _ (or_intror (ex_intro _ _ (ex_intro _ _ L0))) _ E1).
        apply (Hkeep _ _ (or_intror (ex_intro _ _ (ex_intro _ _ El))) _ E0).
        exact Hx.
      * intros _. 
        change (resolve (set_free (set_fs w t) (free w - len data)) filename)
          with (resolve w filename).
        rewrite Er. cbn [fs set_free set_fs].
        now rewrite (lookup_put_same _ _ _ _ E1).
      * intros path Hx. rewrite <- Hw in Hx.
        apply (Hkeep _ _ (or_intror (ex_intro _ _ (ex_intro _ _ El))) _ E0).
        exact Hx.
      * discriminate.
    + intros H; inversion H; subst. split; [repeat split|split].
      * intros path Hx. rewrite <- Hw in Hx.
        apply (Hkeep _ _ (or_intror (ex_intro _ _ (ex_intro _ _ El))) _ E0).
        exact Hx.
      * discriminate.
  - destruct (put p (File perm "") (fs w)) as [t0|] eqn:E0;
      [|intros H; inversion H; subst; repeat split; auto; discriminate].
    pose proof (lookup_put_same _ _ _ _ E0) as L0.
    destruct (len data <=? free w).
    + destruct (put p (File perm data) t0) as [t|] eqn:E1; intros H;
        inversion H; subst; (split; [repeat split|split]).
      * intros path Hx. rewrite <- Hw in Hx.
        apply (Hkeep _ _ (or_intror (ex_intro _ _ (ex_intro _ _ L0))) _ E1).
        apply (Hkeep _ _ (or_introl El) _ E0).
        exact Hx.
      * intros _.
        change (resolve (set_free (set_fs w t) (free w - len data)) filename)
          with (resolve w filename).
        rewrite Er. cbn [fs set_free set_fs].
        now rewrite (lookup_put_same _ _ _ _ E1).
      * intros path Hx. rewrite <- Hw in Hx.
        apply (Hkeep _ _ (or_introl El) _ E0).
        exact Hx.
      * discriminate.
    + intros H; inversion H; subst. split; [repeat split|split].
      * intros path Hx. rewrite <- Hw in Hx.
        apply (Hkeep _ _ (or_introl El) _ E0).
        exact Hx.
      * discriminate.
Qed.

Lemma Sprintf_toml d snap :
  Sprintf toml [d; d; snap; d; d]
  = rendered_config (d ++ "/state") (d ++ "/root") snap
                    (d ++ "/containerd.sock") (d ++ "/debug.sock").
Proof.
  unfold rendered_config, toml, nl, quote.
  rewrite !append_assoc. cbn. reflexivity.
Qed.

Lemma prefix_app (s t : string) : String.prefix s (s ++ t) = true.
Proof.
  induction s as [|c s IH]; simpl; [now destruct t|].
  destruct (ascii_dec c c); [exact IH|congruence].
Qed.

Lemma Start_inv c w w' r :
  Start c w = (w', r) ->
  fs w' = fs w /\ cwd w' = cwd w.
Proof.
  unfold Start. destruct (Process c); [intros H; now inversion H|].
  destruct (findExecutable (Path c) w); intros H; now inversion H.
Qed.

(** What was put is found, with all that is below it. *)
Lemma lookup_put_below p :
  forall r n t t', put p n t = Some t' -> lookup (p ++ r) t' = lookup r n.
Proof.
  induction p as [|name p IH]; intros r n t t' H; [discriminate|].
  destruct (put_Dir _ _ _ _ H) as [es ->].
  destruct (list_eq_dec string_dec p []) as [->|Hne].
  - simpl in H. injection H as <-. simpl.
    now rewrite assoc_set_entry_same.
  - rewrite (put_cons _ _ _ _ Hne) in H.
    destruct (assoc name es) as [child|]; [|discriminate].
    destruct (put p n child) as [child'|] eqn:Ep; [|discriminate].
    injection H as <-. cbn [app lookup]. rewrite assoc_set_entry_same.
    apply (IH _ _ _ _ Ep).
Qed.

(** A regular file found after a [put] is below the node put, or was there
    before. *)
Lemma put_lookup_file p :
  forall q n t t' m d,
    put p n t = Some t' ->
    lookup q t' = Some (File m d) ->
    (exists r, q = (p ++ r)%list /\ lookup r n = Some (File m d)) \/
    lookup q t = Some (File m d).
Proof.
  induction p as [|name p IH]; intros q n t t' m d H Hq; [discriminate|].
  destruct (put_Dir _ _ _ _ H) as [es ->].
  destruct q as [|k q].
  - exfalso. destruct (list_eq_dec string_dec p []) as [->|Hne].
    + simpl in H. injection H as <-. discriminate.
    + rewrite (put_cons _ _ _ _ Hne) in H.
      destruct (assoc name es); [|discriminate].
      destruct (put p n n0); [|discriminate].
      injection H as <-. discriminate.
  - destruct (list_eq_dec string_dec p []) as [->|Hne].
    + simpl in H. injection H as <-. cbn [lookup] in *.
      destruct (String.eqb_spec k name) as [->|Hk].
      * rewrite assoc_set_entry_same in Hq. left. exists q. auto.
      * rewrite (assoc_set_entry_other _ _ _ _ Hk) in Hq. right. exact Hq.
    + rewrite (put_cons _ _ _ _ Hne) in H.
      destruct (assoc name es) as [child|] eqn:Ea; [|discriminate].
      destruct (put p n child) as [child'|] eqn:Ep; [|discriminate].
      injection H as <-. cbn [lookup] in *.
      destruct (String.eqb_spec k name) as [->|Hk].
      * rewrite assoc_set_entry_same in Hq. rewrite Ea.
        destruct (IH _ _ _ _ _ _ Ep Hq) as [(r & -> & Hr)|Hold].
        -- left. exists r. auto.
        -- right. exact Hold.
      * rewrite (assoc_set_entry_other _ _ _ _ Hk) in Hq. right. exact Hq.
Qed.

Lemma resolve_join w d name :
  d <> "" -> plain name ->
  resolve w (d ++ "/" ++ name)
  = option_map (fun p => (p ++ [name])%list) (resolve w d).
Proof.
  intros Hd Hn. unfold resolve.
  destruct (String.eqb_spec d "") as [->|_]; [congruence|].
  destruct (String.eqb_spec (d ++ "/" ++ name) "") as [E|_];
    [destruct d; [congruence|discriminate]|].
  rewrite (rooted_app _ _ Hd), elements_app, (elements_one name) by apply Hn.
  rewrite !clean_elems_scan, scan_app.
  destruct (plain_eqb _ Hn) as (N1 & N2 & N3).
  cbn [scan option_map]. rewrite N1, N2, N3. reflexivity.
Qed.

Lemma TempDir_dir_join w w' d name :
  TempDir "" "moby-ctd" w = (w', inl d) ->
  plain name ->
  d <> "" /\ filepath.Join [d; name] = d ++ "/" ++ name.
Proof.
  unfold TempDir. cbn [String.eqb]. intros Ht Hn.
  assert (Hd := TempDir_loop_inv _ _ _ _ _ _ _ Ht).
  destruct Hd as (_ & p & _ & Hr & _).
  split.
  - intros ->. discriminate.
  - apply TempDir_loop_shape in Ht. destruct Ht as (sfx & Hs & ->).
    apply Join_Join_plain; [| |exact Hn].
    + unfold os_TempDir. destruct (String.eqb_spec (TMPDIR w) "");
        [discriminate|assumption].
    + repeat split; try discriminate.
      rewrite count_byte_app, Hs. reflexivity.
Qed.

(** A regular file found after [WriteFile] is the file written, with the
    mode asked for unless it existed, or was there before. *)
Lemma WriteFile_files filename data perm w w' r q m d :
  WriteFile filename data perm w = (w', r) ->
  lookup q (fs w') = Some (File m d) ->
  (resolve w filename = Some q /\
   (m = perm \/ exists d0, lookup q (fs w) = Some (File m d0))) \/
  lookup q (fs w) = Some (File m d).
Proof.
  unfold WriteFile.
  destruct (resolve w filename) as [p|] eqn:Er;
    [|intros H; injection H as <- _; auto].
  assert (Hstep : forall m0 t t' d1,
             put p (File m0 d1) t = Some t' ->
             lookup q t' = Some (File m d) ->
             (q = p /\ m = m0) \/ lookup q t = Some (File m d)).
  { intros m0 t t' d1 Hp Hq.
    destruct (put_lookup_file _ _ _ _ _ _ _ Hp Hq) as [(r0 & -> & Hr)|Hold];
      [|auto].
    destruct r0; [|discriminate]. simpl in Hr. injection Hr as <- <-.
    rewrite app_nil_r. auto. }
  assert (Hmain : forall m0,
             (m0 = perm \/ exists d0, lookup p (fs w) = Some (File m0 d0)) ->
             match put p (File m0 "") (fs w) with
             | Some t0 =>
                 if len data <=? free w
                 then
                  match put p (File m0 data) t0 with
                  | Some t =>
                      (set_free (set_fs w t) (free w - len data), None)
                  | None => (set_fs w t0, Some (ErrNotExist filename))
                  end
                 else (set_fs w t0, Some (ErrNoSpace filename))
             | None => (w, Some (ErrNotExist filename))
             end = (w', r) ->
             lookup q (fs w') = Some (File m d) ->
             (Some p = Some q /\
              (m = perm \/ exists d0, lookup q (fs w) = Some (File m d0))) \/
             lookup q (fs w) = Some (File m d)).
  { intros m0 Hm0.
    destruct (put p (File m0 "") (fs w)) as [t0|] eqn:E0;
      [|intros H; injection H as <- _; auto].
    assert (H0 : lookup q t0 = Some (File m d) ->
                 (Some p = Some q /\
                  (m = perm \/ exists d0, lookup q (fs w) = Some (File m d0)))
                 \/ lookup q (fs w) = Some (File m d)).
    { intros Hq. destruct (Hstep _ _ _ _ E0 Hq) as [(-> & ->)|Hold]; auto. }
    destruct (len data <=? free w).
    - destruct (put p (File m0 data) t0) as [t|] eqn:E1;
        intros H; injection H as <- _; cbn [fs set_fs set_free]; [|exact H0].
      intros Hq. destruct (Hstep _ _ _ _ E1 Hq) as [(-> & ->)|Hold]; auto.
    - intros H; injection H as <- _; cbn [fs set_fs]. exact H0. }
  destruct (lookup p (fs w)) as [[m0 d0| | |]|] eqn:El;
    try (intros H; injection H as <- _; auto).
  - apply Hmain. right. exists d0. reflexivity.
  - apply Hmain. left. reflexivity.
Qed.

Lemma LookPath_frame file w w2 e :
  PATH w2 = PATH w ->
  (forall path, findExecutable path w2 = true -> findExecutable path w = true) ->
  LookPath file w = inr e ->
  LookPath file w2 = inr (ErrNotFound file).
Proof.
  intros Hp Hf. unfold LookPath. rewrite Hp.
  destruct (has_byte "/" file).
  - destruct (findExecutable file w) eqn:E; [discriminate|]. intros _.
    destruct (findExecutable file w2) eqn:E2; [|reflexivity].
    rewrite (Hf _ E2) in E. discriminate.
  - generalize (PATH w). intros dirs.
    induction dirs as [|d rest IH]; cbn [LookPath_dirs]; [reflexivity|].
    destruct (findExecutable (filepath.Join _) w) eqn:E; [discriminate|].
    intros H.
    destruct (findExecutable (filepath.Join _) w2) eqn:E2; [|exact (IH H)].
    rewrite (Hf _ E2) in E. discriminate.
Qed.

(** Making the directory and writing the configuration bring no file onto
    the disk that was not there, but for the configuration itself. *)
Lemma config_written_files wd wd1 d filename data wd2 r q m dd :
  TempDir "" "moby-ctd" wd = (wd1, inl d) ->
  WriteFile filename data 384 wd1 = (wd2, r) ->
  lookup q (fs wd2) = Some (File m dd) ->
  m = 384%N \/ exists d', lookup q (fs wd) = Some (File m d').
Proof.
  intros Ht Hw Hq.
  unfold TempDir in Ht. apply TempDir_loop_inv in Ht.
  destruct Ht as (n & pd & t1 & _ & _ & Hp & ->).
  assert (Hold : forall d1, lookup q t1 = Some (File m d1) ->
                            exists d', lookup q (fs wd) = Some (File m d')).
  { intros d1 H1.
    destruct (put_lookup_file _ _ _ _ _ _ _ Hp H1) as [(r0 & -> & Hr)|H0].
    - destruct r0; discriminate.
    - exists d1. exact H0. }
  destruct (WriteFile_files _ _ _ _ _ _ _ _ _ Hw Hq)
    as [(_ & [->|(d0 & H0)])|H0]; [left; reflexivity| |];
    right; eapply Hold; exact H0.
Qed.

Lemma NewContainerd_lookup_frame wd wd1 d filename data wd2 r e0 :
  TempDir "" "moby-ctd" wd = (wd1, inl d) ->
  WriteFile filename data 384 wd1 = (wd2, r) ->
  LookPath "containerd" wd = inr e0 ->
  LookPath "containerd" wd2 = inr (ErrNotFound "containerd").
Proof.
  intros Ht Hw.
  destruct (TempDir_fresh _ _ _ _ _ Ht) as (_ & _ & (Hc1 & _ & Hp1 & _)).
  destruct (WriteFile_inv _ _ _ _ _ _ Hw) as ((Hc2 & _ & Hp2 & _) & _ & _).
  apply LookPath_frame; [congruence|].
  intros path. unfold findExecutable, Lstat, resolve.
  rewrite Hc2, Hc1.
  destruct (String.eqb path ""); [discriminate|].
  match goal with |- context [lookup ?q (fs wd2)] => set (p := q) end.
  destruct (lookup p (fs wd2)) as [[m dd| | |]|] eqn:El; try discriminate.
  destruct (config_written_files _ _ _ _ _ _ _ _ _ _ Ht Hw El) as [->|[d' ->]].
  - discriminate.
  - auto.
Qed.

Lemma put_child p :
  forall name n t es,
    lookup p t = Some (Dir es) ->
    exists t', put (p ++ [name]) n t = Some t'.
Proof.
  induction p as [|k p IH]; intros name n t es H.
  - simpl in H. injection H as ->. simpl. eauto.
  - destruct t as [| es0 | |]; try discriminate. cbn [lookup] in H.
    destruct (assoc k es0) as [child|] eqn:Ea; [|discriminate].
    destruct (IH name n _ _ H) as [child' Hc].
    cbn [app]. rewrite put_cons by (destruct p; discriminate).
    rewrite Ea, Hc. eauto.
Qed.

Lemma put_again p :
  forall n n' t t',
    put p n t = Some t' -> exists t'', put p n' t' = Some t''.
Proof.
  induction p as [|name p IH]; intros n n' t t' H; [discriminate|].
  destruct (put_Dir _ _ _ _ H) as [es ->].
  destruct (list_eq_dec string_dec p []) as [->|Hne].
  - simpl in H. injection H as <-. simpl. eauto.
  - rewrite (put_cons _ _ _ _ Hne) in H.
    destruct (assoc name es) as [child|]; [|discriminate].
    destruct (put p n child) as [child'|] eqn:Ep; [|discriminate].
    injection H as <-.
    destruct (IH _ n' _ _ Ep) as [c'' Hc].
    rewrite (put_cons _ _ _ _ Hne), assoc_set_entry_same, Hc. eauto.
Qed.

(** Writing a new file into a directory that exists succeeds when the disk
    has room for it. *)
Lemma WriteFile_fresh filename data perm w p name es :
  resolve w filename = Some (p ++ [name])%list ->
  lookup p (fs w) = Some (Dir es) ->
  lookup (p ++ [name]) (fs w) = None ->
  len data <= free w ->
  exists w', WriteFile filename data perm w = (w', None).
Proof.
  intros Hr Hp Hn Hf. unfold WriteFile. rewrite Hr, Hn.
  destruct (put_child _ name (File perm "") _ _ Hp) as [t0 E0]. rewrite E0.
  destruct (put_again _ _ (File perm data) _ _ E0) as [t E1]. rewrite E1.
  replace (len data <=? free w) with true by (symmetry; apply Z.leb_le; lia).
  eauto.
Qed.

(** After [ioutil.TempDir] the new directory is empty and the rest of the
    world, the random source apart, is what it was. *)
Lemma TempDir_empty w w' d :
  TempDir "" "moby-ctd" w = (w', inl d) ->
  exists p,
    resolve w' d = Some p /\ lookup p (fs w') = Some (Dir []) /\
    free w' = free w.
Proof.
  unfold TempDir. intros H. apply TempDir_loop_inv in H.
  destruct H as (n & p & t & Hr & _ & Hp & ->).
  exists p. repeat split; [exact Hr|].
  cbn [fs set_fs]. apply (lookup_put_same _ _ _ _ Hp).
Qed.

Lemma lookup_app p :
  forall r t,
    lookup (p ++ r) t =
    match lookup p t with
    | Some n => lookup r n
    | None => None
    end.
Proof.
  induction p as [|k p IH]; intros r t; [reflexivity|].
  cbn [app lookup]. destruct t; try reflexivity.
  destruct (assoc k entries); [apply IH|reflexivity].
Qed.

(** C2, as the code has it: with the daemon binary absent from the search
    path, and room on the disk for the configuration, [NewContainerd] fails
    with the error [Cannot find containerd in path]; the directory it made
    earlier in the call, which did not exist before, is not removed: it is
    still there when the error is returned, with [config.toml] written in
    it. *)
Theorem NewContainerd_binary_missing sink wd e0 wd1 d :
  LookPath "containerd" wd = inr e0 ->
  TempDir "" "moby-ctd" wd = (wd1, inl d) ->
  let config :=
    rendered_config
      (d ++ "/state") (d ++ "/root")
      (if String.eqb (GOOS wd) "darwin" then "naive" else "overlay")
      (d ++ "/containerd.sock") (d ++ "/debug.sock") in
  len config <= free wd ->
  exists wd2,
    NewContainerd sink wd
    = (wd2, inr (ErrorNew "Cannot find containerd in path")) /\
    exists_path d wd = false /\
    exists_path d wd2 = true /\
    read_file (d ++ "/config.toml") wd2 = Some config.
Proof.
  intros Hl Ht config Hfree.
  destruct (TempDir_fresh _ _ _ _ _ Ht) as (Hf & Hx & (_ & Hg & _)).
  destruct (TempDir_empty _ _ _ Ht) as (p & Hr & Hp & Hfr).
  destruct (TempDir_dir_join _ _ _ _ Ht plain_config_toml) as [Hd Hj].
  assert (Hrc : resolve wd1 (d ++ "/" ++ "config.toml")
                = Some (p ++ ["config.toml"])%list).
  { rewrite (resolve_join _ _ _ Hd plain_config_toml), Hr. reflexivity. }
  assert (Hnone : lookup (p ++ ["config.toml"]) (fs wd1) = None).
  { rewrite lookup_app, Hp. reflexivity. }
  rewrite <- Hfr in Hfree.
  destruct (WriteFile_fresh _ config 384 _ _ _ _ Hrc Hp Hnone Hfree)
    as [wd2 Hw].
  exists wd2.
  destruct (WriteFile_inv _ _ _ _ _ _ Hw) as (_ & Hk & Hrd).
  repeat split.
  - unfold NewContainerd. rewrite Ht, Hj, Sprintf_toml, Hg.
    fold config. rewrite Hw.
    now rewrite (NewContainerd_lookup_frame _ _ _ _ _ _ _ _ Ht Hw Hl).
  - exact Hf.
  - exact (Hk _ Hx).
  - exact (Hrd eq_refl).
Qed.

Lemma NewContainerd_binary_missing_witness :
  exists wd2,
    NewContainerd 7%nat world_bare
    = (wd2, inr (ErrorNew "Cannot find containerd in path")) /\
    exists_path "/tmp/moby-ctd000000041" world_bare = false /\
    exists_path "/tmp/moby-ctd000000041" wd2 = true /\
    read_file ("/tmp/moby-ctd000000041" ++ "/config.toml") wd2
    = Some (rendered_config "/tmp/moby-ctd000000041/state"
                            "/tmp/moby-ctd000000041/root"
                            "overlay"
                            "/tmp/moby-ctd000000041/containerd.sock"
                            "/tmp/moby-ctd000000041/debug.sock").
Proof.
  apply (NewContainerd_binary_missing 7%nat world_bare
           (ErrNotFound "containerd")
           (fst (TempDir "" "moby-ctd" world_bare))
           "/tmp/moby-ctd000000041").
  - vm_compute. reflexivity.
  - vm_compute. reflexivity.
  - vm_compute. discriminate.
Defined.

(** Against C2 as the specification has it: on a host without the daemon
    binary [NewContainerd] returns the error and leaves behind a directory
    that did not exist before the call. *)
Lemma NewContainerd_leaks_directory :
  LookPath "containerd" world_bare = inr (ErrNotFound "containerd") /\
  snd (NewContainerd 7%nat world_bare)
  = inr (ErrorNew "Cannot find containerd in path") /\
  exists_path "/tmp/moby-ctd000000041" world_bare = false /\
  exists_path "/tmp/moby-ctd000000041" (fst (NewContainerd 7%nat world_bare))
  = true.
Proof. vm_compute. repeat split. Qed.

(** C6: the document [NewContainerd] writes to [config.toml] in its
    directory is the template with the directory put into four slots, the
    paths of [state], [root], the grpc address and the debug address, each
    of which therefore starts with the directory, and with the snapshotter
    slot holding [naive] on Darwin and [overlay] on any other system. *)
Theorem config_document sink wd wd' c :
  NewContainerd sink wd = (wd', inl c) ->
  let d := dir c in
  let snapshotter :=
    if String.eqb (GOOS wd) "darwin" then "naive" else "overlay" in
  read_file (d ++ "/config.toml") wd'
  = Some (rendered_config (d ++ "/state") (d ++ "/root") snapshotter
                          (d ++ "/containerd.sock") (d ++ "/debug.sock")) /\
  Forall (fun path => strings.HasPrefix path d = true)
         [d ++ "/state"; d ++ "/root";
          d ++ "/containerd.sock"; d ++ "/debug.sock"].
Proof.
  intros Hn. cbv zeta.
  change (dir c ++ "/config.toml") with (dir c ++ "/" ++ "config.toml").
  rewrite <- (NewContainerd_dir_join _ _ _ _ _ Hn plain_config_toml).
  revert Hn. unfold NewContainerd.
  destruct (TempDir "" "moby-ctd" wd) as [wd1 [d|e]] eqn:Ht; [|discriminate].
  destruct (TempDir_fresh _ _ _ _ _ Ht) as (_ & _ & (_ & Hg & _)).
  destruct (WriteFile _ _ 384 wd1) as [wd2 [e|]] eqn:Hw; [discriminate|].
  destruct (WriteFile_inv _ _ _ _ _ _ Hw) as (_ & _ & Hr).
  specialize (Hr eq_refl).
  destruct (LookPath "containerd" wd2) as [containerd|e]; [|discriminate].
  destruct (Start _ wd2) as [wd3 [cmd'|e]] eqn:Hs; [|discriminate].
  destruct (Start_inv _ _ _ _ Hs) as [Hfs Hcwd].
  intros H. injection H as <- <-. cbn [dir].
  split.
  - rewrite <- Hg, <- Sprintf_toml, <- Hr.
    unfold read_file, resolve. rewrite Hfs, Hcwd. reflexivity.
  - repeat constructor; apply prefix_app.
Qed.

Lemma config_document_witness :
  read_file "/tmp/moby-ctd000000041/config.toml" world_started
  = Some (rendered_config "/tmp/moby-ctd000000041/state"
                          "/tmp/moby-ctd000000041/root"
                          "overlay"
                          "/tmp/moby-ctd000000041/containerd.sock"
                          "/tmp/moby-ctd000000041/debug.sock") /\
  read_file "/tmp/moby-ctd000000041/config.toml"
            (fst (NewContainerd 7%nat world_darwin))
  = Some (rendered_config "/tmp/moby-ctd000000041/state"
                          "/tmp/moby-ctd000000041/root"
                          "naive"
                          "/tmp/moby-ctd000000041/containerd.sock"
                          "/tmp/moby-ctd000000041/debug.sock").
Proof.
  split.
  - apply (config_document 7%nat world_ok world_started ctd_started).
    vm_compute. reflexivity.
  - apply (config_document 7%nat world_darwin
             (fst (NewContainerd 7%nat world_darwin)) ctd_darwin).
    vm_compute. reflexivity.
Defined.

(** ** The snapshot of [Store] *)

(** C3 on [world_fetched]: an instance is created, an image is fetched,
    and [Store] succeeds.  The store then holds the regular file
    [/tmp/moby-ctd000000041/root/tmp/moby-ctd000000041/root], whose bytes
    are [x], and [Store] archives it under the name [var/lib/containerd]:
    [strings.Replace] with a count of -1 has taken both occurrences of the
    store's path out of the file's path, where stripping the leading one
    leaves [tmp/moby-ctd000000041/root].  The name does not start with
    [var/lib/containerd/]. *)
Theorem Store_repeated_root :
  snd (NewContainerd 7%nat world_crafted) = inl ctd_crafted /\
  dir ctd_crafted = "/tmp/moby-ctd000000041" /\
  snd (Fetch ctd_crafted "alpine" false
             (fst (NewContainerd 7%nat world_crafted))) = None /\
  Open "/tmp/moby-ctd000000041/root/tmp/moby-ctd000000041/root" world_fetched
  = inl (File 420 "x") /\
  snd (Store any_header sample_tarPrefix ctd_crafted world_fetched) = None /\
  regular_files (fst (Store any_header sample_tarPrefix ctd_crafted world_fetched))
  = [("var/lib/containerd/a", "hello"); ("var/lib/containerd", "x")] /\
  strings.TrimPrefix
    (strings.TrimPrefix
       "/tmp/moby-ctd000000041/root/tmp/moby-ctd000000041/root"
       (filepath.Join [dir ctd_crafted; "root"]))
    filepath.Separator = "tmp/moby-ctd000000041/root" /\
  strings.HasPrefix "var/lib/containerd" "var/lib/containerd/" = false.
Proof. vm_compute. repeat split. Qed.

(** * Further properties *)

(** ** The shape of a normalised name *)

Lemma qualified_slashes image : (2 <= count_byte "/" (qualified image))%nat.
Proof.
  unfold qualified.
  destruct (count_byte "/" image) as [|[|k]] eqn:E.
  - rewrite count_byte_app, E. simpl. lia.
  - rewrite count_byte_app, E. simpl. lia.
  - rewrite E. lia.
Qed.

Lemma qualified_colon image :
  has_byte ":" (qualified image) = has_byte ":" image.
Proof.
  unfold qualified.
  destruct (count_byte "/" image) as [|[|k]];
    rewrite ?has_byte_app; reflexivity.
Qed.

Lemma qualified_fixed image :
  (2 <= count_byte "/" image)%nat -> qualified image = image.
Proof.
  unfold qualified. intros H.
  destruct (count_byte "/" image) as [|[|k]]; [lia|lia|reflexivity].
Qed.

Lemma ImageName_shape image :
  (2 <= count_byte "/" (ImageName image))%nat /\
  has_byte ":" (ImageName image) = true.
Proof.
  rewrite ImageName_eq.
  pose proof (qualified_slashes image) as Hs.
  destruct (has_byte ":" (qualified image)) eqn:Hc.
  - split; [exact Hs|exact Hc].
  - rewrite count_byte_app, has_byte_app, Hc. split; [lia|reflexivity].
Qed.

Lemma ImageName_idempotent_aux image :
  ImageName (ImageName image) = ImageName image.
Proof.
  destruct (ImageName_shape image) as [Hs Hc].
  rewrite (ImageName_eq (ImageName image)).
  rewrite (qualified_fixed _ Hs), Hc. reflexivity.
Qed.

(** X1: a name that [ImageName] returned is left as it is by [ImageName]:
    normalising twice is normalising once. *)
Theorem ImageName_idempotent (image : string) :
  ImageName (ImageName image) = ImageName image.
Proof. apply ImageName_idempotent_aux. Qed.

(** X2: every name [ImageName] returns is fully qualified: it has at least
    three parts between slashes, so that [strings.SplitN] with bound 3
    finds three, and it holds a [':']. *)
Theorem ImageName_fully_qualified (image : string) :
  List.length (strings.SplitN (ImageName image) "/" 3) = 3%nat /\
  (2 <= count_byte "/" (ImageName image))%nat /\
  has_byte ":" (ImageName image) = true.
Proof.
  destruct (ImageName_shape image) as [Hs Hc].
  destruct (SplitN_byte "/" (ImageName image) 2) as [Hl _].
  cbv zeta in Hl. change (Z.of_nat 3) with 3 in Hl.
  split; [rewrite Hl; lia|]. split; assumption.
Qed.

(** X3: the defaults are what [ImageName] fills in.  Writing the tag
    [:latest] on a name without a [':'], the namespace [library/] in front
    of a name without a slash, or the registry [docker.io/] in front of a
    name with one slash, gives the same normalised name as leaving it
    out. *)
Theorem ImageName_defaults (name : string) :
  (has_byte ":" name = false ->
   ImageName (name ++ ":latest") = ImageName name) /\
  (count_byte "/" name = 0%nat ->
   ImageName ("library/" ++ name) = ImageName name) /\
  (count_byte "/" name = 1%nat ->
   ImageName ("docker.io/" ++ name) = ImageName name).
Proof.
  repeat split.
  - intros Hc. rewrite !ImageName_eq.
    assert (Hq : qualified (name ++ ":latest") = qualified name ++ ":latest").
    { unfold qualified. rewrite count_byte_app. simpl. rewrite Nat.add_0_r.
      destruct (count_byte "/" name) as [|[|k]];
        rewrite ?append_assoc; reflexivity. }
    rewrite Hq, has_byte_app, (qualified_colon name), Hc. reflexivity.
  - intros Hs. rewrite !ImageName_eq.
    assert (Hq : qualified ("library/" ++ name) = qualified name).
    { unfold qualified. rewrite count_byte_app, Hs. reflexivity. }
    now rewrite Hq.
  - intros Hs. rewrite !ImageName_eq.
    assert (Hq : qualified ("docker.io/" ++ name) = qualified name).
    { unfold qualified. rewrite count_byte_app, Hs. reflexivity. }
    now rewrite Hq.
Qed.

Lemma ImageName_defaults_witness :
  ImageName ("alpine" ++ ":latest") = ImageName "alpine" /\
  ImageName ("library/" ++ "alpine") = ImageName "alpine" /\
  ImageName ("docker.io/" ++ "library/alpine") = ImageName "library/alpine".
Proof.
  split; [|split].
  - apply (proj1 (ImageName_defaults "alpine")). reflexivity.
  - apply (proj1 (proj2 (ImageName_defaults "alpine"))). reflexivity.
  - apply (proj2 (proj2 (ImageName_defaults "library/alpine"))). reflexivity.
Defined.

(** ** What [NewContainerd] leaves behind *)

Lemma same_host_refl w : same_host w w.
Proof. repeat split. Qed.

Lemma same_host_trans w1 w2 w3 :
  same_host w1 w2 -> same_host w2 w3 -> same_host w1 w3.
Proof.
  unfold same_host. intros (A1 & A2 & A3 & A4 & A5 & A6)
                           (B1 & B2 & B3 & B4 & B5 & B6).
  repeat split; congruence.
Qed.

Lemma exists_path_host w w' path :
  cwd w' = cwd w -> fs w' = fs w -> exists_path path w' = exists_path path w.
Proof.
  intros Hc Hf. unfold exists_path, Lstat, resolve. now rewrite Hc, Hf.
Qed.

Lemma Mkdir_keeps path w w' r :
  Mkdir path w = (w', r) ->
  same_host w w' /\
  (forall q, exists_path q w = true -> exists_path q w' = true).
Proof.
  intros H. apply Mkdir_inv in H. destruct r as [e|].
  - subst w'. split; [apply same_host_refl|auto].
  - destruct H as (p & t & Hr & Hl & Hp & ->).
    split; [repeat split|].
    intros q. unfold exists_path, Lstat. rewrite resolve_set_fs.
    destruct (resolve w q) as [pq|]; [|auto]. cbn [fs set_fs].
    pose proof (put_keeps _ _ _ _ pq Hp (or_introl Hl)) as Hk.
    destruct (lookup pq (fs w)); [|discriminate].
    destruct (lookup pq t); [reflexivity|].
    exfalso. apply Hk; congruence.
Qed.

Lemma TempDir_loop_keeps dir pre i :
  forall last w w' r,
    TempDir_loop i dir pre last w = (w', r) ->
    same_host w w' /\
    (forall q, exists_path q w = true -> exists_path q w' = true).
Proof.
  induction i as [|i IH]; intros last w w' r; cbn [TempDir_loop].
  - intros H. injection H as <- _. split; [apply same_host_refl|auto].
  - destruct (Mkdir _ (set_rand_pos w (S (rand_pos w)))) as [w1 r1] eqn:Em.
    apply Mkdir_keeps in Em. destruct Em as [Hh Hk].
    assert (Hstep : same_host w w1 /\
                    forall q, exists_path q w = true ->
                              exists_path q w1 = true).
    { split; [exact Hh|]. intros q Hq. apply Hk. exact Hq. }
    destruct r1 as [e|].
    + destruct e;
        try (intros H; injection H as <- _; exact Hstep).
      intros H. apply IH in H. destruct H as [Hh2 Hk2].
      split; [eapply same_host_trans; [apply Hstep|exact Hh2]|].
      intros q Hq. apply Hk2, Hstep, Hq.
    + intros H; injection H as <- _. exact Hstep.
Qed.

Lemma Start_host c w w' r :
  Start c w = (w', r) ->
  fs w' = fs w /\ cwd w' = cwd w /\
  match r with
  | inr _ => w' = w
  | inl c' =>
      exists pid,
        c' = set_Process c pid /\
        find_proc pid (procs w) = None /\
        procs w' = (pid, mkProc c' Running) :: procs w /\
        events w' = (events w ++ [Exec c])%list
  end.
Proof.
  unfold Start. destruct (Process c); [intros H; now inversion H|].
  destruct (findExecutable (Path c) w); intros H; inversion H; subst;
    [|auto].
  repeat split. exists (fresh_pid (procs w)). repeat split.
  unfold fresh_pid.
  assert (Hb : forall ps pid,
             (fold_right (fun kp m => N.max (fst kp) m) 0%N ps < pid)%N ->
             find_proc pid ps = None).
  { induction ps as [|[k p] ps IH]; intros pid Hlt; [reflexivity|].
    simpl in *. destruct (N.eqb_spec k pid) as [->|_]; [lia|].
    apply IH. lia. }
  apply Hb. lia.
Qed.

(** The steps of [NewContainerd], one after the other, for a run that got
    past the directory. *)
Lemma NewContainerd_steps sink wd wd' r wd1 d :
  NewContainerd sink wd = (wd', r) ->
  TempDir "" "moby-ctd" wd = (wd1, inl d) ->
  exists wd2 rw,
    WriteFile (d ++ "/config.toml")
      (rendered_config
         (d ++ "/state") (d ++ "/root")
         (if String.eqb (GOOS wd) "darwin" then "naive" else "overlay")
         (d ++ "/containerd.sock") (d ++ "/debug.sock"))
      384 wd1 = (wd2, rw) /\
    match rw with
    | Some e => wd' = wd2 /\ r = inr e
    | None =>
        match LookPath "containerd" wd2 with
        | inr _ =>
            wd' = wd2 /\ r = inr (ErrorNew "Cannot find containerd in path")
        | inl bin =>
            let c0 := mkCmd bin [bin; "--config"; d ++ "/config.toml"]
                            None (Some sink) None in
            exists rs,
              Start c0 wd2 = (wd', rs) /\
              match rs with
              | inr e => r = inr e
              | inl c' => r = inl (mkCtd c' sink d false)
              end
        end
    end.
Proof.
  intros Hn Ht. revert Hn. unfold NewContainerd. rewrite Ht.
  destruct (TempDir_fresh _ _ _ _ _ Ht) as (_ & _ & (_ & Hg & _)).
  destruct (TempDir_dir_join _ _ _ _ Ht plain_config_toml) as [_ Hj].
  rewrite Hj, Sprintf_toml, Hg.
  change (d ++ "/" ++ "config.toml") with (d ++ "/config.toml").
  destruct (WriteFile _ _ 384 wd1) as [wd2 [e|]] eqn:Hw.
  - intros H. injection H as <- <-. exists wd2, (Some e). auto.
  - exists wd2, None. split; [reflexivity|].
    destruct (LookPath "containerd" wd2) as [bin|e].
    + cbv zeta. unfold Command, set_Stderr in *. cbn [Path Args Stdout Process] in *.
      destruct (Start _ wd2) as [wd3 [c'|e]] eqn:Hs;
        injection Hn as <- <-; eexists; (split; [reflexivity|reflexivity]).
    + injection Hn as <- <-. auto.
Qed.

Lemma NewContainerd_first sink wd wd' r :
  NewContainerd sink wd = (wd', r) ->
  (exists wd1 d, TempDir "" "moby-ctd" wd = (wd1, inl d)) \/
  (exists e, TempDir "" "moby-ctd" wd = (wd', inr e) /\ r = inr e).
Proof.
  unfold NewContainerd.
  destruct (TempDir "" "moby-ctd" wd) as [wd1 [d|e]].
  - intros _. left. eauto.
  - intros H. injection H as <- <-. right. eauto.
Qed.

Lemma TempDir_keeps dir pre w w' r :
  TempDir dir pre w = (w', r) ->
  same_host w w' /\
  (forall q, exists_path q w = true -> exists_path q w' = true).
Proof. unfold TempDir. apply TempDir_loop_keeps. Qed.

(** What a run of [NewContainerd] keeps, whatever its result: the working
    directory, every path of the disk and the directory it made; a run
    that fails leaves processes and log as they were, a run that succeeds
    adds one running process. *)
Lemma NewContainerd_keeps sink wd wd' r :
  NewContainerd sink wd = (wd', r) ->
  cwd wd' = cwd wd /\
  (forall q, exists_path q wd = true -> exists_path q wd' = true) /\
  (forall wd1 d, TempDir "" "moby-ctd" wd = (wd1, inl d) ->
                 exists_path d wd = false /\ exists_path d wd' = true) /\
  match r with
  | inr _ => procs wd' = procs wd /\ events wd' = events wd
  | inl c =>
      exists pid,
        Process (cmd c) = Some pid /\
        find_proc pid (procs wd) = None /\
        procs wd' = (pid, mkProc (cmd c) Running) :: procs wd
  end.
Proof.
  intros Hn.
  destruct (NewContainerd_first _ _ _ _ Hn) as [(wd1 & d & Ht)|(e & Ht & ->)].
  - destruct (NewContainerd_steps _ _ _ _ _ _ Hn Ht) as (wd2 & rw & Hw & Hrest).
    destruct (TempDir_fresh _ _ _ _ _ Ht) as (Hf & Hx & Hh1).
    destruct (TempDir_keeps _ _ _ _ _ Ht) as [_ Hk1].
    destruct (WriteFile_inv _ _ _ _ _ _ Hw) as (Hh2 & Hk2 & _).
    pose proof (same_host_trans _ _ _ Hh1 Hh2) as (Hc & _ & _ & _ & Hp & He).
    assert (Hfin : forall w3, fs w3 = fs wd2 -> cwd w3 = cwd wd2 ->
               cwd w3 = cwd wd /\
               (forall q, exists_path q wd = true -> exists_path q w3 = true) /\
               (forall wd1' d', TempDir "" "moby-ctd" wd = (wd1', inl d') ->
                 exists_path d' wd = false /\ exists_path d' w3 = true)).
    { intros w3 Hfs Hcw. split; [congruence|]. split.
      - intros q Hq. rewrite (exists_path_host _ _ _ Hcw Hfs). auto.
      - intros wd1' d' Ht'. rewrite Ht in Ht'. injection Ht' as <- <-.
        split; [exact Hf|].
        rewrite (exists_path_host _ _ _ Hcw Hfs). auto. }
    destruct rw as [e|].
    + destruct Hrest as [-> ->].
      destruct (Hfin wd2 eq_refl eq_refl) as (A & B & C).
      split; [exact A|]. split; [exact B|]. split; [exact C|].
      split; assumption.
    + destruct (LookPath "containerd" wd2) as [bin|e].
      * cbv zeta in Hrest. destruct Hrest as (rs & Hs & Hr).
        destruct (Start_host _ _ _ _ Hs) as (Hfs & Hcw & Hst).
        destruct (Hfin wd' Hfs Hcw) as (A & B & C).
        split; [exact A|]. split; [exact B|]. split; [exact C|].
        destruct rs as [c'|e]; subst r.
        -- destruct Hst as (pid & -> & Hnew & Hps & _).
           exists pid. cbn [cmd set_Process Process].
           split; [reflexivity|]. split; [congruence|].
           rewrite Hps, Hp. reflexivity.
        -- subst wd'. split; assumption.
      * destruct Hrest as [-> ->].
        destruct (Hfin wd2 eq_refl eq_refl) as (A & B & C).
        split; [exact A|]. split; [exact B|]. split; [exact C|].
        split; assumption.
  - destruct (TempDir_keeps _ _ _ _ _ Ht) as [(Hc & _ & _ & _ & Hp & He) Hk].
    split; [exact Hc|]. split; [exact Hk|]. split; [|split; assumption].
    intros wd1 d Ht'. rewrite Ht in Ht'. discriminate.
Qed.



(** X5: a run of [NewContainerd] that fails has started no program: the
    process table and the log of started programs are what they were. *)
Theorem NewContainerd_failure_starts_nothing sink wd wd' e :
  NewContainerd sink wd = (wd', inr e) ->
  procs wd' = procs wd /\ events wd' = events wd.
Proof.
  intros Hn. destruct (NewContainerd_keeps _ _ _ _ Hn) as (_ & _ & _ & H).
  exact H.
Qed.

Lemma NewContainerd_failure_starts_nothing_witness :
  procs (fst (NewContainerd 7%nat world_bare)) = procs world_bare /\
  events (fst (NewContainerd 7%nat world_bare)) = events world_bare.
Proof.
  apply (NewContainerd_failure_starts_nothing 7%nat world_bare
           (fst (NewContainerd 7%nat world_bare))
           (ErrorNew "Cannot find containerd in path")).
  vm_compute. reflexivity.
Defined.

(** X6: [NewContainerd] removes nothing.  Whatever it returns, every path
    that existed before the call exists after it; in particular a run that
    fails after it has made its directory, at whatever step, leaves the
    directory behind. *)
Theorem NewContainerd_removes_nothing sink wd wd' r :
  NewContainerd sink wd = (wd', r) ->
  (forall path, exists_path path wd = true -> exists_path path wd' = true) /\
  (forall wd1 d,
      TempDir "" "moby-ctd" wd = (wd1, inl d) ->
      exists_path d wd = false /\ exists_path d wd' = true).
Proof.
  intros Hn. destruct (NewContainerd_keeps _ _ _ _ Hn) as (_ & H1 & H2 & _).
  split; assumption.
Qed.

Lemma NewContainerd_removes_nothing_witness :
  exists_path "/usr/bin" (fst (NewContainerd 7%nat world_bare)) = true /\
  exists_path "/tmp/moby-ctd000000041" (fst (NewContainerd 7%nat world_bare))
  = true.
Proof.
  destruct (NewContainerd_removes_nothing 7%nat world_bare
              (fst (NewContainerd 7%nat world_bare))
              (snd (NewContainerd 7%nat world_bare))) as [H1 H2].
  - vm_compute. reflexivity.
  - split.
    + apply H1. vm_compute. reflexivity.
    + apply (H2 (fst (TempDir "" "moby-ctd" world_bare))).
      vm_compute. reflexivity.
Defined.

(** X7: two instances never share a directory: an instance created while
    the directory of an earlier one still exists gets another one. *)
Theorem NewContainerd_distinct_directories sink1 sink2 wd wd1 c1 wd2 wd3 c2 :
  NewContainerd sink1 wd = (wd1, inl c1) ->
  exists_path (dir c1) wd2 = true ->
  NewContainerd sink2 wd2 = (wd3, inl c2) ->
  dir c1 <> dir c2.
Proof.
  intros H1 Hx H2 Heq.
  destruct (NewContainerd_first _ _ _ _ H2) as [(w & d & Ht)|(e & _ & He)];
    [|discriminate].
  destruct (NewContainerd_keeps _ _ _ _ H2) as (_ & _ & Hd & _).
  destruct (Hd _ _ Ht) as [Hf _].
  destruct (NewContainerd_steps _ _ _ _ _ _ H2 Ht) as (w2 & rw & _ & Hrest).
  assert (Hdir : dir c2 = d).
  { destruct rw as [e|]; [destruct Hrest; discriminate|].
    destruct (LookPath "containerd" w2); [|destruct Hrest; discriminate].
    cbv zeta in Hrest. destruct Hrest as (rs & _ & Hr).
    destruct rs; [|discriminate]. injection Hr as ->. reflexivity. }
  rewrite Heq, Hdir, Hf in Hx. discriminate.
Qed.

Lemma NewContainerd_distinct_directories_witness :
  dir ctd_started
  <> dir (match snd (NewContainerd 8%nat world_started) with
          | inl c => c
          | inr _ => sample_ctd
          end).
Proof.
  eapply (NewContainerd_distinct_directories 7%nat 8%nat world_ok
            world_started ctd_started world_started).
  - vm_compute. reflexivity.
  - vm_compute. reflexivity.
  - vm_compute. reflexivity.
Defined.

(** ** When [NewContainerd] succeeds *)









(** ** Killing and closing *)

Lemma find_proc_set_status pid k st ps :
  find_proc k (set_status pid st ps) =
  if N.eqb k pid
  then option_map (fun p => mkProc (p_cmd p) st) (find_proc k ps)
  else find_proc k ps.
Proof.
  induction ps as [|[j p] ps IH]; simpl.
  - now destruct (N.eqb k pid).
  - destruct (N.eqb_spec j pid) as [->|Hj]; simpl.
    + destruct (N.eqb_spec pid k) as [->|Hk].
      * now rewrite N.eqb_refl.
      * rewrite IH. destruct (N.eqb_spec k pid); [congruence|reflexivity].
    + destruct (N.eqb_spec j k) as [->|Hk].
      * destruct (N.eqb_spec k pid); [congruence|reflexivity].
      * exact IH.
Qed.

(** What [Kill] does when it succeeds, and that it does nothing when it
    fails. *)
Lemma Kill_inv c wd c' wd' r :
  Kill c wd = (c', wd', r) ->
  match r with
  | Some e => c' = c /\ wd' = wd
  | None =>
      c' = set_shutdown c true /\
      fs wd' = fs wd /\ cwd wd' = cwd wd /\ events wd' = events wd /\
      exists pid p,
        Process (cmd c) = Some pid /\
        find_proc pid (procs wd) = Some p /\
        p_status p <> Reaped /\
        forall k,
          find_proc k (procs wd') =
          if N.eqb k pid then Some (mkProc (p_cmd p) Reaped)
          else find_proc k (procs wd)
  end.
Proof.
  unfold Kill, Process_Kill, Wait.
  destruct (Process (cmd c)) as [pid|] eqn:Hp; [|intros H; inversion H; auto].
  destruct (find_proc pid (procs wd)) as [p|] eqn:Ef;
    [|intros H; inversion H; auto].
  destruct (p_status p) eqn:Es.
  - cbn [procs set_procs]. rewrite find_proc_set_status, N.eqb_refl, Ef.
    cbn [option_map p_status].
    intros H. inversion H; subst.
    split; [reflexivity|]. split; [reflexivity|]. split; [reflexivity|].
    split; [reflexivity|].
    exists pid, p. split; [reflexivity|]. split; [exact Ef|].
    split; [congruence|].
    intros k. cbn [procs set_procs]. rewrite !find_proc_set_status.
    destruct (N.eqb k pid) eqn:Ek; [|reflexivity].
    apply N.eqb_eq in Ek. subst k. rewrite Ef. reflexivity.
  - rewrite Ef, Es. intros H. inversion H; subst.
    split; [reflexivity|]. split; [reflexivity|]. split; [reflexivity|].
    split; [reflexivity|].
    exists pid, p. split; [reflexivity|]. split; [exact Ef|].
    split; [congruence|].
    intros k. cbn [procs set_procs]. rewrite find_proc_set_status.
    destruct (N.eqb k pid) eqn:Ek; [|reflexivity].
    apply N.eqb_eq in Ek. subst k. rewrite Ef. reflexivity.
  - intros H. inversion H; auto.
Qed.

(** X9: a [Kill] that succeeds marks the instance as shut down and leaves
    its directory, sink and command alone; the process of the instance has
    been waited for, every other process is as it was, nothing on the disk
    has changed (the directory is not removed) and no program was
    started.  A [Kill] that fails changes nothing at all. *)
Theorem Kill_keeps_directory c wd c' wd' r :
  Kill c wd = (c', wd', r) ->
  dir c' = dir c /\ w c' = w c /\ cmd c' = cmd c /\
  fs wd' = fs wd /\ events wd' = events wd /\
  (forall path, exists_path path wd' = exists_path path wd) /\
  match r with
  | Some _ => c' = c /\ wd' = wd
  | None =>
      shutdown c' = true /\
      exists pid p,
        Process (cmd c) = Some pid /\
        find_proc pid (procs wd) = Some p /\
        find_proc pid (procs wd') = Some (mkProc (p_cmd p) Reaped) /\
        forall k, k <> pid -> find_proc k (procs wd') = find_proc k (procs wd)
  end.
Proof.
  intros H. apply Kill_inv in H. destruct r as [e|].
  - destruct H as [-> ->]. repeat split.
  - destruct H as (-> & Hfs & Hcw & Hev & pid & p & Hp & Hf & _ & Hk).
    cbn [set_shutdown dir w cmd shutdown].
    repeat split; auto.
    + intros path. apply exists_path_host; assumption.
    + exists pid, p. repeat split; auto.
      * rewrite Hk, N.eqb_refl. reflexivity.
      * intros k Hne. rewrite Hk.
        destruct (N.eqb_spec k pid); [contradiction|reflexivity].
Qed.

Lemma Kill_keeps_directory_witness :
  shutdown (fst (fst (Kill ctd_started world_started))) = true /\
  exists_path (dir ctd_started) (snd (fst (Kill ctd_started world_started)))
  = true.
Proof.
  destruct (Kill_keeps_directory ctd_started world_started
              (fst (fst (Kill ctd_started world_started)))
              (snd (fst (Kill ctd_started world_started)))
              None) as (_ & _ & _ & _ & _ & Hx & Hs & _).
  - vm_compute. reflexivity.
  - split; [exact Hs|]. rewrite Hx. vm_compute. reflexivity.
Defined.

(** X10: [Kill] is not idempotent.  After a [Kill] that succeeded, a second
    [Kill] on the instance it returned fails with the error of a process
    already finished, and changes nothing. *)
Theorem Kill_twice c wd c1 wd1 :
  Kill c wd = (c1, wd1, None) ->
  Kill c1 wd1 = (c1, wd1, Some ErrFinished).
Proof.
  intros H. apply Kill_inv in H.
  destruct H as (-> & _ & _ & _ & pid & p & Hp & _ & _ & Hk).
  unfold Kill, Process_Kill. cbn [set_shutdown cmd]. rewrite Hp.
  rewrite Hk, N.eqb_refl. reflexivity.
Qed.

Lemma Kill_twice_witness :
  Kill (fst (fst (Kill ctd_started world_started)))
       (snd (fst (Kill ctd_started world_started)))
  = (fst (fst (Kill ctd_started world_started)),
     snd (fst (Kill ctd_started world_started)), Some ErrFinished).
Proof.
  apply (Kill_twice ctd_started world_started). vm_compute. reflexivity.
Defined.

(** X11: [Close] implies [Kill]: on an instance that is not shut down,
    calling [Kill] and then, if it succeeded, [Close], is calling [Close]. *)
Theorem Kill_then_Close c wd c1 wd1 :
  shutdown c = false ->
  Kill c wd = (c1, wd1, None) ->
  Close c1 wd1 = Close c wd.
Proof.
  intros Hs H. unfold Close at 2. rewrite Hs. cbn [negb]. rewrite H.
  apply Kill_inv in H. destruct H as (-> & _).
  unfold Close. cbn [set_shutdown shutdown negb dir]. reflexivity.
Qed.

Lemma Kill_then_Close_witness :
  Close (fst (fst (Kill ctd_started world_started)))
        (snd (fst (Kill ctd_started world_started)))
  = Close ctd_started world_started.
Proof.
  apply (Kill_then_Close ctd_started world_started).
  - vm_compute. reflexivity.
  - vm_compute. reflexivity.
Defined.

Lemma del_entry_idem name es :
  del_entry name (del_entry name es) = del_entry name es.
Proof.
  unfold del_entry. induction es as [|[k n] es IH]; simpl; [reflexivity|].
  destruct (String.eqb k name) eqn:E; simpl; [exact IH|].
  rewrite E. simpl. now rewrite IH.
Qed.

(** Pruning twice is pruning once. *)
Lemma prune_idem p : forall t, prune p (prune p t) = prune p t.
Proof.
  induction p as [|name p IH]; intros t; [destruct t; reflexivity|].
  destruct (list_eq_dec string_dec p []) as [->|Hne].
  - destruct t; simpl; try reflexivity. now rewrite del_entry_idem.
  - destruct t as [m d|es| |]; try (destruct p; reflexivity).
    rewrite !(prune_cons name p _ Hne). f_equal.
    rewrite map_map. apply map_ext. intros [k n]. cbn [fst snd].
    destruct (String.eqb k name) eqn:E; cbn [fst snd]; rewrite E;
      [now rewrite IH|reflexivity].
Qed.

Lemma RemoveAll_idem path wd wd' :
  RemoveAll path wd = (wd', None) -> RemoveAll path wd' = (wd', None).
Proof.
  unfold RemoveAll.
  destruct (resolve wd path) as [[|name p]|] eqn:Er; [discriminate| |];
    intros H.
  - assert (Hw : wd' = set_fs wd (prune (name :: p) (fs wd))) by congruence.
    subst wd'. rewrite resolve_set_fs, Er.
    change (fs (set_fs wd (prune (name :: p) (fs wd))))
      with (prune (name :: p) (fs wd)).
    rewrite prune_idem. reflexivity.
  - assert (Hw : wd' = wd) by congruence. subst wd'. now rewrite Er.
Qed.

Lemma Close_inv c wd c' wd' r :
  Close c wd = (c', wd', r) ->
  exists c1 wd1 rk,
    (if shutdown c then (c1, wd1, rk) = (c, wd, None)
     else Kill c wd = (c1, wd1, rk)) /\
    match rk with
    | Some e => c' = c1 /\ wd' = wd1 /\ r = Some e
    | None => c' = c1 /\ RemoveAll (dir c1) wd1 = (wd', r)
    end.
Proof.
  unfold Close.
  destruct (shutdown c).
  - cbn [negb]. exists c, wd, None. split; [reflexivity|].
    destruct (RemoveAll (dir c) wd) as [w2 [e|]]; inversion H; auto.
  - cbn [negb]. destruct (Kill c wd) as [[c1 wd1] rk].
    exists c1, wd1, rk. split; [reflexivity|].
    destruct rk as [e|]; [inversion H; auto|].
    destruct (RemoveAll (dir c1) wd1) as [w2 [e|]]; inversion H; auto.
Qed.

(** X12: after a [Close] that succeeded the instance is marked as shut
    down, and a second [Close] on it succeeds again without changing
    anything: it does not kill again, and removing a directory that is gone
    is no error. *)
Theorem Close_twice c wd c' wd' :
  Close c wd = (c', wd', None) ->
  shutdown c' = true /\ Close c' wd' = (c', wd', None).
Proof.
  intros H. apply Close_inv in H.
  destruct H as (c1 & wd1 & rk & Hk & Hrest).
  assert (Hs : rk = None -> shutdown c1 = true).
  { intros ->. destruct (shutdown c) eqn:E.
    - injection Hk as -> _. exact E.
    - apply Kill_inv in Hk. destruct Hk as (-> & _). reflexivity. }
  destruct rk as [e|]; [destruct Hrest as (_ & _ & ?); discriminate|].
  destruct Hrest as [-> Hr]. specialize (Hs eq_refl).
  split; [exact Hs|].
  unfold Close. rewrite Hs. cbn [negb].
  now rewrite (RemoveAll_idem _ _ _ Hr).
Qed.

Lemma Close_twice_witness :
  Close (fst (fst (Close ctd_started world_started)))
        (snd (fst (Close ctd_started world_started)))
  = (fst (fst (Close ctd_started world_started)),
     snd (fst (Close ctd_started world_started)), None).
Proof.
  apply (Close_twice ctd_started world_started). vm_compute. reflexivity.
Defined.

Lemma assoc_del_entry_other name k es :
  k <> name -> assoc k (del_entry name es) = assoc k es.
Proof.
  intros Hk. unfold del_entry.
  induction es as [|[j n] es IH]; simpl; [reflexivity|].
  destruct (String.eqb_spec j name) as [->|Hj]; simpl.
  - destruct (String.eqb_spec name k); [congruence|exact IH].
  - destruct (String.eqb j k); [reflexivity|exact IH].
Qed.

Lemma assoc_map_prune_other name k p es :
  k <> name ->
  assoc k
    (map (fun kn => if String.eqb (fst kn) name
                    then (fst kn, prune p (snd kn)) else kn) es)
  = assoc k es.
Proof.
  intros Hk. induction es as [|[j n] es IH]; simpl; [reflexivity|].
  destruct (String.eqb_spec j name) as [->|Hj]; simpl.
  - destruct (String.eqb_spec name k); [congruence|exact IH].
  - destruct (String.eqb j k); [reflexivity|exact IH].
Qed.

(** Pruning keeps every regular file that is not at or below the path
    pruned. *)
Lemma prune_preserves_file p :
  forall q t m d,
    lookup q t = Some (File m d) ->
    (forall r, q <> (p ++ r)%list) ->
    lookup q (prune p t) = Some (File m d).
Proof.
  induction p as [|name p IH]; intros q t m d Hq Hne;
    [destruct t; exact Hq|].
  destruct t as [m0 d0|es| |]; try (destruct p; exact Hq).
  destruct q as [|k q]; [discriminate|].
  cbn [lookup] in Hq.
  destruct (list_eq_dec string_dec p []) as [->|Hp].
  - cbn [prune lookup].
    destruct (String.eqb_spec k name) as [->|Hk].
    + exfalso. apply (Hne q). reflexivity.
    + now rewrite (assoc_del_entry_other _ _ _ Hk).
  - rewrite (prune_cons name p es Hp). cbn [lookup].
    destruct (String.eqb_spec k name) as [->|Hk].
    + rewrite assoc_map_prune.
      destruct (assoc name es) as [child|]; [|discriminate].
      cbn [option_map]. apply IH; [exact Hq|].
      intros r ->. apply (Hne r). reflexivity.
    + now rewrite (assoc_map_prune_other _ _ _ _ Hk).
Qed.

(** X13: [Close] removes the directory of the instance and nothing else: a
    regular file that is not at or below the directory is still there after
    the call, with the same bytes, whatever the call returns. *)
Theorem Close_keeps_other_files c wd c' wd' r path data :
  Close c wd = (c', wd', r) ->
  read_file path wd = Some data ->
  ~ under wd (dir c) path ->
  read_file path wd' = Some data.
Proof.
  intros H Hrd Hnu. apply Close_inv in H.
  destruct H as (c1 & wd1 & rk & Hk & Hrest).
  assert (H1 : dir c1 = dir c /\ fs wd1 = fs wd /\ cwd wd1 = cwd wd).
  { destruct (shutdown c).
    - injection Hk as -> -> _. auto.
    - apply Kill_inv in Hk. destruct rk as [e|].
      + destruct Hk as [-> ->]. auto.
      + destruct Hk as (-> & Hf & Hc & _). auto. }
  destruct H1 as (Hd & Hfs & Hcw).
  assert (Hres : forall s, resolve wd1 s = resolve wd s)
    by (intros s; unfold resolve; now rewrite Hcw).
  assert (Hrd1 : read_file path wd1 = Some data).
  { unfold read_file in *. now rewrite Hres, Hfs. }
  destruct rk as [e|]; [destruct Hrest as (_ & -> & _); exact Hrd1|].
  destruct Hrest as [_ Hr]. rewrite Hd in Hr. unfold RemoveAll in Hr.
  destruct (resolve wd1 (dir c)) as [[|name p]|] eqn:Er;
    try (injection Hr as <- _; exact Hrd1).
  assert (Hw : wd' = set_fs wd1 (prune (name :: p) (fs wd1))) by congruence.
  subst wd'. unfold read_file in *. rewrite resolve_set_fs.
  destruct (resolve wd1 path) as [q|] eqn:Eq; [|discriminate].
  cbn [fs set_fs].
  destruct (lookup q (fs wd1)) as [[m d| | |]|] eqn:El; try discriminate.
  rewrite (prune_preserves_file _ _ _ _ _ El); [exact Hrd1|].
  intros r0 ->. apply Hnu. exists (name :: p), r0.
  rewrite <- !Hres. auto.
Qed.

Lemma Close_keeps_other_files_witness :
  read_file "/usr/bin/dist"
            (snd (fst (Close ctd_started world_started))) = Some "ELF".
Proof.
  eapply (Close_keeps_other_files ctd_started world_started _ _ _
            "/usr/bin/dist" "ELF").
  - vm_compute. reflexivity.
  - vm_compute. reflexivity.
  - intros (p & r & Hp & Hq). vm_compute in Hp, Hq.
    injection Hp as <-. discriminate.
Defined.

(** ** Fetching *)

Lemma programs_app es1 es2 :
  programs (es1 ++ es2) = (programs es1 ++ programs es2)%list.
Proof.
  induction es1 as [|[l|c] es1 IH]; simpl; [reflexivity|exact IH|].
  now rewrite IH.
Qed.

(** [Fetch], step by step. *)
Lemma Fetch_unfold c repo trust wd :
  Fetch c repo trust wd =
  let logged := add_event wd (Debugf ("fetch: " ++ repo)) in
  match LookPath "dist" wd with
  | inr _ => (logged, Some (ErrorNew "Cannot find dist in path"))
  | inl dist =>
      let cmd := fetch_command dist c repo in
      let '(t, ok) := tool wd cmd (fs wd) in
      (add_event (set_fs logged t) (Exec cmd),
       if ok then None else Some (ErrExit (Args cmd)))
  end.
Proof.
  unfold Fetch. cbn [Sprintf Ascii.eqb Bool.eqb]. 
  change (Sprintf "fetch: %s" [repo]) with ("fetch: " ++ (repo ++ "")).
  rewrite append_nil_r, LookPath_events. cbv zeta.
  destruct (LookPath "dist" wd) as [dist|e] eqn:Hd; [|reflexivity].
  unfold Run. cbn [Process set_Stdout set_Stderr Command Path].
  rewrite findExecutable_events, (LookPath_executable _ _ _ Hd).
  cbn [tool add_event fs]. unfold fetch_command.
  destruct (tool wd _ (fs wd)) as [t ok]. destruct ok; reflexivity.
Qed.



(** X15: without the fetch tool on the search path, [Fetch] returns the
    error [Cannot find dist in path] and has done nothing but log its debug
    line: no program was started, disk and processes are as they were. *)
Theorem Fetch_without_tool c repo trust wd e0 :
  LookPath "dist" wd = inr e0 ->
  exists wd',
    Fetch c repo trust wd = (wd', Some (ErrorNew "Cannot find dist in path"))
    /\ started wd' = started wd /\ fs wd' = fs wd /\ procs wd' = procs wd.
Proof.
  intros Hd. rewrite Fetch_unfold. cbv zeta. rewrite Hd.
  eexists. split; [reflexivity|].
  unfold started. cbn [events add_event fs procs].
  rewrite programs_app. cbn [programs]. rewrite app_nil_r. auto.
Qed.

Lemma Fetch_without_tool_witness :
  exists wd',
    Fetch sample_ctd "alpine" false world_bare
    = (wd', Some (ErrorNew "Cannot find dist in path"))
    /\ started wd' = started world_bare /\ fs wd' = fs world_bare
    /\ procs wd' = procs world_bare.
Proof.
  apply (Fetch_without_tool sample_ctd "alpine" false world_bare
           (ErrNotFound "dist")).
  vm_compute. reflexivity.
Defined.

(** X16: [Fetch] of a reference and [Fetch] of its normalised form do the
    same: the same program is started with the same arguments, the disk
    and the processes end up the same and the same error is returned.  Only
    the debug line differs. *)
Theorem Fetch_normalised c repo trust wd :
  let a := Fetch c (ImageName repo) trust wd in
  let b := Fetch c repo trust wd in
  snd a = snd b /\
  started (fst a) = started (fst b) /\
  fs (fst a) = fs (fst b) /\ procs (fst a) = procs (fst b).
Proof.
  cbv zeta. rewrite !Fetch_unfold. cbv zeta.
  destruct (LookPath "dist" wd) as [dist|e].
  - unfold fetch_command. rewrite ImageName_idempotent_aux.
    destruct (tool wd _ (fs wd)) as [t ok].
    unfold started. cbn [fst snd events add_event set_fs fs procs].
    rewrite !programs_app. cbn [programs]. auto.
  - unfold started. cbn [fst snd events add_event set_fs fs procs].
    rewrite !programs_app. cbn [programs]. auto.
Qed.

(** ** More on [Bundle] *)

Lemma WriteHeader_regular accepts hdr tw tw' :
  idle tw ->
  tar.Typeflag hdr = tar.TypeRegA ->
  tar.has_suffix_slash (tar.Name hdr) = false ->
  tar.WriteHeader accepts hdr tw = (tw', None) ->
  tar.out tw'
  = (tar.out tw
     ++ [tar.IHeader (tar.mkHeader (tar.Name hdr) (tar.Mode hdr)
                                   (tar.Size hdr) tar.TypeReg)])%list /\
  tar.err tw' = None /\ tar.nb tw' = tar.Size hdr.
Proof.
  intros [He Hn] Hf Hs. unfold tar.WriteHeader, tar.Flush.
  rewrite He, Hn, Hf, Hs. cbn [Z.ltb Z.compare tar.isHeaderOnlyType].
  match goal with |- context [accepts ?h] => destruct (accepts h) end;
    [|discriminate].
  intros H. injection H as <-. auto.
Qed.

(** The archive of [Bundle], record by record. *)
Lemma Bundle_tar_records accepts tarPrefix path image config items :
  writes_directories tarPrefix ->
  Bundle_tar accepts tarPrefix path image config = inl items ->
  exists hs,
    Forall (fun h => tar.Typeflag h = tar.TypeDir) hs /\
    items = (map tar.IHeader hs
             ++ tar.IHeader (tar.mkHeader (path ++ "/config.json") 420
                                          (len config) tar.TypeReg)
             :: (if String.eqb config "" then [] else [tar.IData config])
             ++ tar.IHeader (tar.mkHeader (path ++ "/image") 420
                                          (len image) tar.TypeReg)
             :: (if String.eqb image "" then [] else [tar.IData image])
             ++ [tar.ITrailer])%list.
Proof.
  intros Hdirs. unfold Bundle_tar.
  destruct (tarPrefix (path ++ "/") tar.NewWriter) as [tw0 [e|]] eqn:E0;
    [discriminate|].
  apply Hdirs in E0; [|split; reflexivity].
  destruct E0 as (Hi0 & hs & Ho0 & Hall). simpl in Ho0.
  destruct (tar.WriteHeader accepts _ tw0) as [tw1 [e|]] eqn:E1; [discriminate|].
  apply WriteHeader_regular in E1;
    [|exact Hi0|reflexivity
     |cbn [tar.Name]; rewrite has_suffix_slash_app; [reflexivity|discriminate]].
  cbn [tar.Name tar.Mode tar.Size] in E1. destruct E1 as (Ho1 & He1 & Hn1).
  destruct (tar.Copy config tw1) as [tw2 r2] eqn:E2.
  destruct (Copy_exact _ _ _ _ He1 Hn1 E2) as (-> & Hi2 & Ho2).
  destruct (tar.WriteHeader accepts _ tw2) as [tw3 [e|]] eqn:E3; [discriminate|].
  apply WriteHeader_regular in E3;
    [|exact Hi2|reflexivity
     |cbn [tar.Name]; rewrite has_suffix_slash_app; [reflexivity|discriminate]].
  cbn [tar.Name tar.Mode tar.Size] in E3. destruct E3 as (Ho3 & He3 & Hn3).
  destruct (tar.Copy image tw3) as [tw4 r4] eqn:E4.
  destruct (Copy_exact _ _ _ _ He3 Hn3 E4) as (-> & Hi4 & Ho4).
  unfold tar.Close, tar.Flush. destruct Hi4 as [He4 Hn4].
  rewrite He4, Hn4. simpl. intros H. inversion H; subst items; clear H.
  exists hs. split; [exact Hall|].
  rewrite Ho4, Ho3, Ho2, Ho1, Ho0. rewrite <- !app_assoc. reflexivity.
Qed.

(** X17: the archive of a [Bundle] that succeeds is well formed.  After
    the directory headers of [tarPrefix] it holds the header of
    [path/config.json], with mode 0644 and the length of [config] as size,
    then the bytes of [config] if there are any, then the same for
    [path/image] and the [image] argument, then the end-of-archive marker:
    each payload has the size its header announces, and the archive is
    closed. *)
Theorem Bundle_archive_well_formed accepts tarPrefix c path image config trust
                                   wd wd' bytes :
  writes_directories tarPrefix ->
  Bundle accepts tarPrefix c path image config trust wd
  = (wd', (bytes, None)) ->
  exists dirs,
    Forall (fun h => tar.Typeflag h = tar.TypeDir) dirs /\
    bytes = (map tar.IHeader dirs
             ++ tar.IHeader (tar.mkHeader (path ++ "/config.json") 420
                                          (len config) tar.TypeReg)
             :: (if String.eqb config "" then [] else [tar.IData config])
             ++ tar.IHeader (tar.mkHeader (path ++ "/image") 420
                                          (len image) tar.TypeReg)
             :: (if String.eqb image "" then [] else [tar.IData image])
             ++ [tar.ITrailer])%list.
Proof.
  intros Hdirs. rewrite Bundle_split.
  destruct (Bundle_tar accepts tarPrefix path image config) as [items|e] eqn:Et;
    [|discriminate].
  destruct (Fetch c image trust _) as [wd1 [e|]]; [discriminate|].
  intros H. injection H as _ <-.
  apply (Bundle_tar_records _ _ _ _ _ _ Hdirs Et).
Qed.

Lemma Bundle_archive_well_formed_witness :
  exists dirs,
    Forall (fun h => tar.Typeflag h = tar.TypeDir) dirs /\
    fst (snd (Bundle any_header sample_tarPrefix sample_ctd "p" "alpine" ""
                     false world_ok))
    = (map tar.IHeader dirs
       ++ tar.IHeader (tar.mkHeader ("p" ++ "/config.json") 420
                                    (len "") tar.TypeReg)
       :: (if String.eqb "" "" then [] else [tar.IData ""])
       ++ tar.IHeader (tar.mkHeader ("p" ++ "/image") 420
                                    (len "alpine") tar.TypeReg)
       :: (if String.eqb "alpine" "" then [] else [tar.IData "alpine"])
       ++ [tar.ITrailer])%list.
Proof.
  eapply (Bundle_archive_well_formed any_header sample_tarPrefix sample_ctd
            "p" "alpine" "" false world_ok).
  - apply (tarPrefix_spec_writes_directories any_header).
  - vm_compute. reflexivity.
Defined.

(** X18: [Bundle] calls [Fetch] last, and only with a finished archive.
    When it succeeds the fetch tool has been started once, for the
    normalised form of [image], while the archive holds [image] as it was
    given.  When the archive cannot be built, [Bundle] returns that error
    and has started no program and left the disk alone. *)
Theorem Bundle_fetches_last accepts tarPrefix c path image config trust wd
                            wd' bytes r :
  Bundle accepts tarPrefix c path image config trust wd = (wd', (bytes, r)) ->
  (r = None ->
   exists dist,
     LookPath "dist" wd = inl dist /\
     started wd' = (started wd ++ [fetch_command dist c image])%list /\
     Bundle_tar accepts tarPrefix path image config = inl bytes) /\
  (forall e,
      Bundle_tar accepts tarPrefix path image config = inr e ->
      r = Some e /\ started wd' = started wd /\ fs wd' = fs wd /\
      procs wd' = procs wd).
Proof.
  rewrite Bundle_split, Fetch_unfold. unfold Bundle_logged. cbv zeta.
  rewrite LookPath_events. change (fs (add_event wd _)) with (fs wd).
  change (tool (add_event wd _)) with (tool wd).
  destruct (Bundle_tar accepts tarPrefix path image config) as [items|e0].
  - intros H. split; [|discriminate]. intros ->.
    destruct (LookPath "dist" wd) as [dist|e]; [|discriminate].
    destruct (tool wd (fetch_command dist c image) (fs wd)) as [t ok].
    destruct ok; [|discriminate]. injection H as <- <-.
    exists dist. split; [reflexivity|]. split; [|reflexivity].
    unfold started. cbn [events add_event set_fs].
    rewrite !programs_app. cbn [programs]. now rewrite !app_nil_r.
  - intros H. injection H as <- _ <-. split; [discriminate|].
    intros e He. injection He as <-.
    unfold started. cbn [events add_event fs procs].
    rewrite programs_app. cbn [programs]. rewrite app_nil_r. auto.
Qed.

Lemma Bundle_fetches_last_witness :
  exists dist,
    LookPath "dist" world_ok = inl dist /\
    started (fst (Bundle any_header sample_tarPrefix sample_ctd "p" "alpine"
                         "{}" false world_ok))
    = (started world_ok ++ [fetch_command dist sample_ctd "alpine"])%list /\
    Bundle_tar any_header sample_tarPrefix "p" "alpine" "{}"
    = inl (fst (snd (Bundle any_header sample_tarPrefix sample_ctd "p"
                            "alpine" "{}" false world_ok))).
Proof.
  eapply (proj1 (Bundle_fetches_last any_header sample_tarPrefix sample_ctd
                   "p" "alpine" "{}" false world_ok _ _ None _)).
  reflexivity.
  Unshelve. vm_compute. reflexivity.
Defined.

(** X19: the archive [Bundle] returns depends on the path, the image
    reference and the configuration alone: whatever the instance, the
    world and the trust flag, two calls that succeed return the same
    bytes. *)
Theorem Bundle_archive_independent accepts tarPrefix path image config
        c1 trust1 wd1 wd1' bytes1 c2 trust2 wd2 wd2' bytes2 :
  Bundle accepts tarPrefix c1 path image config trust1 wd1
  = (wd1', (bytes1, None)) ->
  Bundle accepts tarPrefix c2 path image config trust2 wd2
  = (wd2', (bytes2, None)) ->
  bytes1 = bytes2.
Proof.
  rewrite !Bundle_split.
  destruct (Bundle_tar accepts tarPrefix path image config) as [items|e];
    [|discriminate].
  destruct (Fetch c1 image trust1 _) as [w1 [e|]]; [discriminate|].
  destruct (Fetch c2 image trust2 _) as [w2 [e|]]; [discriminate|].
  intros H1 H2. congruence.
Qed.

Lemma Bundle_archive_independent_witness :
  fst (snd (Bundle any_header sample_tarPrefix sample_ctd "p" "alpine" "{}"
                   false world_ok))
  = fst (snd (Bundle any_header sample_tarPrefix ctd_started "p" "alpine"
                     "{}" true world_started)).
Proof.
  eapply (Bundle_archive_independent any_header sample_tarPrefix "p" "alpine"
            "{}" sample_ctd false world_ok _ _ ctd_started true world_started).
  - vm_compute. reflexivity.
  - vm_compute. reflexivity.
Defined.

(** ** More on [Store] *)

Lemma Node_induction (P : Node -> Prop) :
  (forall perm data, P (File perm data)) ->
  (forall es, Forall (fun kn => P (snd kn)) es -> P (Dir es)) ->
  P Fifo -> P Socket ->
  forall n, P n.
Proof.
  intros HF HD HP HS. fix IH 1.
  intros [perm data|es| |]; [apply HF| |exact HP|exact HS].
  apply HD. induction es as [|[k child] es IHes]; constructor.
  - apply IH.
  - exact IHes.
Qed.

















Lemma Close_idle tw :
  idle tw ->
  tar.Close tw
  = (tar.mkWriter (tar.out tw ++ [tar.ITrailer])%list (tar.nb tw)
                  (Some ErrWriteAfterClose), None).
Proof.
  destruct tw as [o k e]. intros [He Hn]. cbn [tar.err tar.nb] in He, Hn.
  subst. reflexivity.
Qed.








(** [Store] over a root that names nothing. *)
Lemma Store_no_root accepts tarPrefix c wd :
  writes_directories tarPrefix ->
  snd (tarPrefix "var/lib/containerd/" tar.NewWriter) = None ->
  exists_path (filepath.Join [dir c; "root"]) wd = false ->
  exists dirs,
    Forall (fun h => tar.Typeflag h = tar.TypeDir) dirs /\
    Store accepts tarPrefix c wd
    = ((map tar.IHeader dirs ++ [tar.ITrailer])%list,
       Some (ErrNotExist (filepath.Join [dir c; "root"]))).
Proof.
  intros Hdirs Hpre Hex. unfold Store. cbv zeta.
  destruct (tarPrefix "var/lib/containerd/" tar.NewWriter) as [tw0 r0] eqn:E0.
  cbn [snd] in Hpre. subst r0.
  assert (Hn : idle tar.NewWriter) by (split; reflexivity).
  destruct (Hdirs _ _ _ Hn E0) as (Hw0 & dirs & Ho0 & Hd).
  assert (EW : Walk (filepath.Join [dir c; "root"])
                    (Store_walkFn accepts wd (filepath.Join [dir c; "root"])
                                  "var/lib/containerd/") wd tw0
               = (tw0, Some (ErrNotExist (filepath.Join [dir c; "root"])))).
  { unfold Walk. unfold exists_path, Lstat in Hex.
    destruct (resolve wd (filepath.Join [dir c; "root"])) as [p|];
      [|reflexivity].
    destruct (lookup p (fs wd)); [discriminate|reflexivity]. }
  rewrite EW, (Close_idle _ Hw0). cbn [fst snd tar.out].
  rewrite Ho0. cbn [tar.NewWriter tar.out app].
  exists dirs. split; [exact Hd|reflexivity].
Qed.

(** X21: without a store there is no snapshot.  When nothing exists at the
    [root] directory of the instance, [Store] returns the not-exist error
    of that path; the archive it leaves in the sink holds the directories
    of [tarPrefix] and the end-of-archive marker, and no file. *)
Theorem Store_missing_root accepts tarPrefix c wd :
  writes_directories tarPrefix ->
  snd (tarPrefix "var/lib/containerd/" tar.NewWriter) = None ->
  exists_path (filepath.Join [dir c; "root"]) wd = false ->
  snd (Store accepts tarPrefix c wd)
  = Some (ErrNotExist (filepath.Join [dir c; "root"])) /\
  regular_files (fst (Store accepts tarPrefix c wd)) = [] /\
  exists dirs,
    Forall (fun h => tar.Typeflag h = tar.TypeDir) dirs /\
    fst (Store accepts tarPrefix c wd)
    = (map tar.IHeader dirs ++ [tar.ITrailer])%list.
Proof.
  intros Hdirs Hpre Hex.
  destruct (Store_no_root accepts tarPrefix c wd Hdirs Hpre Hex)
    as (dirs & Hd & E).
  rewrite E. cbn [fst snd]. split; [reflexivity|]. split.
  - now rewrite (regular_files_dirs _ _ Hd).
  - exists dirs. split; [exact Hd|reflexivity].
Qed.

Lemma Store_missing_root_witness :
  snd (Store any_header sample_tarPrefix ctd_started world_started)
  = Some (ErrNotExist (filepath.Join [dir ctd_started; "root"])) /\
  regular_files (fst (Store any_header sample_tarPrefix ctd_started
                            world_started)) = [] /\
  exists dirs,
    Forall (fun h => tar.Typeflag h = tar.TypeDir) dirs /\
    fst (Store any_header sample_tarPrefix ctd_started world_started)
    = (map tar.IHeader dirs ++ [tar.ITrailer])%list.
Proof.
  apply (Store_missing_root any_header sample_tarPrefix ctd_started
           world_started).
  - apply (tarPrefix_spec_writes_directories any_header).
  - vm_compute. reflexivity.
  - vm_compute. reflexivity.
Defined.

(** [filepath.Walk] calls its function and does nothing else with it. *)
Lemma walk_ext (f g : WalkFunc) :
  (forall file fi e tw, f file fi e tw = g file fi e tw) ->
  forall n path name tw, walk path name n f tw = walk path name n g tw.
Proof.
  intros Hfg n.
  induction n as [perm data|es IH| |] using Node_induction;
    intros path name tw; cbn [walk]; rewrite Hfg; try reflexivity.
  destruct (g path _ None tw) as [tw1 [e|]]; [reflexivity|].
  revert tw1. induction es as [|[k child] es IHes]; intros tw1;
    [reflexivity|].
  inversion IH as [|? ? Hc Hes]; subst. cbn [snd] in Hc.
  rewrite Hc. destruct (walk _ k child g tw1) as [tw2 [e|]].
  - destruct (negb (IsDir (info_of k child)) || negb (is_SkipDir e));
      [reflexivity|]. now apply IHes.
  - now apply IHes.
Qed.

(** [Store] reads the directory of the instance and the disk, and nothing
    else of the instance or its world. *)
Lemma Store_host accepts tarPrefix c c' wd wd' :
  dir c' = dir c -> fs wd' = fs wd -> cwd wd' = cwd wd ->
  Store accepts tarPrefix c' wd' = Store accepts tarPrefix c wd.
Proof.
  intros Hd Hf Hc.
  assert (Hr : forall path, resolve wd' path = resolve wd path).
  { intros path. unfold resolve. now rewrite Hc. }
  unfold Store. cbv zeta. rewrite Hd.
  destruct (tarPrefix "var/lib/containerd/" tar.NewWriter) as [tw0 [e|]];
    [reflexivity|].
  set (src := filepath.Join [dir c; "root"]).
  assert (Hfn : forall file fi e tw,
             Store_walkFn accepts wd' src "var/lib/containerd/" file fi e tw
             = Store_walkFn accepts wd src "var/lib/containerd/" file fi e tw).
  { intros file fi e tw. unfold Store_walkFn, Open. now rewrite Hr, Hf. }
  assert (HW : Walk src (Store_walkFn accepts wd' src "var/lib/containerd/")
                    wd' tw0
               = Walk src (Store_walkFn accepts wd src "var/lib/containerd/")
                      wd tw0).
  { unfold Walk. rewrite Hr, Hf.
    destruct (resolve wd src) as [p|]; [|now rewrite Hfn].
    destruct (lookup p (fs wd)) as [n|]; [|now rewrite Hfn].
    now rewrite (walk_ext _ _ Hfn). }
  now rewrite HW.
Qed.

(** X22: [Kill] leaves the store as it is.  Whatever [Kill] returns, the
    snapshot [Store] takes of the instance afterwards is the one it would
    have taken before, archive and error alike. *)
Theorem Store_after_Kill accepts tarPrefix c wd c' wd' r :
  Kill c wd = (c', wd', r) ->
  Store accepts tarPrefix c' wd' = Store accepts tarPrefix c wd.
Proof.
  intros H. apply Kill_inv in H. destruct r as [e|].
  - destruct H as [-> ->]. reflexivity.
  - destruct H as (-> & Hf & Hc & _). now apply Store_host.
Qed.

Lemma Store_after_Kill_witness :
  Store any_header sample_tarPrefix
        (fst (fst (Kill ctd_started world_stored)))
        (snd (fst (Kill ctd_started world_stored)))
  = Store any_header sample_tarPrefix ctd_started world_stored.
Proof.
  eapply (Store_after_Kill any_header sample_tarPrefix ctd_started
            world_stored _ _ (snd (Kill ctd_started world_stored))).
  vm_compute. reflexivity.
Defined.

Lemma NewContainerd_dir sink wd wd' c :
  NewContainerd sink wd = (wd', inl c) ->
  dir c <> "" /\ filepath.Join [dir c; "root"] = dir c ++ "/" ++ "root".
Proof.
  intros H.
  destruct (NewContainerd_first _ _ _ _ H) as [(wd1 & d & Ht)|(e & _ & E)];
    [|discriminate].
  destruct (NewContainerd_steps _ _ _ _ _ _ H Ht) as (wd2 & rw & _ & Hrest).
  assert (Hd : dir c = d).
  { destruct rw as [e|]; [destruct Hrest; discriminate|].
    destruct (LookPath "containerd" wd2) as [bin|e];
      [|destruct Hrest; discriminate].
    destruct Hrest as (rs & _ & Hrs).
    destruct rs as [c1|e]; [|discriminate].
    injection Hrs as ->. reflexivity. }
  rewrite Hd. apply (TempDir_dir_join _ _ _ _ Ht plain_root).
Qed.

(** X23: a closed instance has no store.  For an instance that
    [NewContainerd] returned, once [Close] has succeeded [Store] returns
    the not-exist error of the [root] directory, and the archive holds the
    directories of [tarPrefix] and the end-of-archive marker alone. *)
Theorem Store_after_Close accepts tarPrefix sink wd0 wd1 c wd c' wd' :
  writes_directories tarPrefix ->
  snd (tarPrefix "var/lib/containerd/" tar.NewWriter) = None ->
  NewContainerd sink wd0 = (wd1, inl c) ->
  Close c wd = (c', wd', None) ->
  snd (Store accepts tarPrefix c' wd')
  = Some (ErrNotExist (dir c ++ "/root")) /\
  exists dirs,
    Forall (fun h => tar.Typeflag h = tar.TypeDir) dirs /\
    fst (Store accepts tarPrefix c' wd')
    = (map tar.IHeader dirs ++ [tar.ITrailer])%list.
Proof.
  intros Hdirs Hpre Hnew Hclose.
  destruct (NewContainerd_dir _ _ _ _ Hnew) as (Hne & Hj).
  destruct (Close_inv _ _ _ _ _ Hclose) as (c1 & w1 & rk & Hk & Hrest).
  destruct rk as [e|]; [destruct Hrest as (_ & _ & E); discriminate|].
  destruct Hrest as (-> & Hrm).
  assert (Hd : dir c1 = dir c).
  { destruct (shutdown c).
    - now injection Hk as -> _.
    - apply Kill_inv in Hk. now destruct Hk as (-> & _). }
  rewrite Hd in Hrm.
  destruct (RemoveAll_gone _ _ _ Hrm) as (_ & Hgone).
  assert (Hex : exists_path (filepath.Join [dir c1; "root"]) wd' = false).
  { rewrite Hd, Hj. unfold exists_path, Lstat.
    rewrite (resolve_join _ _ _ Hne plain_root).
    destruct (resolve wd' (dir c)) as [p|] eqn:Er; [|reflexivity].
    cbn [option_map]. now rewrite (Hgone p ["root"] eq_refl). }
  destruct (Store_no_root accepts tarPrefix c1 wd' Hdirs Hpre Hex)
    as (dirs & Hdd & E).
  rewrite E, Hd, Hj. cbn [fst snd]. split; [reflexivity|].
  exists dirs. split; [exact Hdd|reflexivity].
Qed.

Lemma Store_after_Close_witness :
  snd (Store any_header sample_tarPrefix
             (fst (fst (Close ctd_started world_stored)))
             (snd (fst (Close ctd_started world_stored))))
  = Some (ErrNotExist (dir ctd_started ++ "/root")) /\
  exists dirs,
    Forall (fun h => tar.Typeflag h = tar.TypeDir) dirs /\
    fst (Store any_header sample_tarPrefix
               (fst (fst (Close ctd_started world_stored)))
               (snd (fst (Close ctd_started world_stored))))
    = (map tar.IHeader dirs ++ [tar.ITrailer])%list.
Proof.
  eapply (Store_after_Close any_header sample_tarPrefix 7%nat world_ok
            world_started ctd_started world_stored).
  - apply (tarPrefix_spec_writes_directories any_header).
  - vm_compute. reflexivity.
  - vm_compute. reflexivity.
  - vm_compute. reflexivity.
Defined.
